(** * Todo application: API service, store and client

    A shallow embedding of [backend/server.js] (the four Express routes),
    of the [todos] table declared in [backend/setup_db.js] and of the script
    that creates it, and of the React client ([App.tsx]): its list fetch,
    its three mutations, and the client and the server run together.

    The PostgreSQL server, the [pg] connection pool, Express and axios are
    collaborators of the program, not part of it.  They are modelled here
    only as far as the handlers observe them: the table is a finite map keyed
    by its primary key, the [SERIAL] column draws from a sequence, a
    statement either yields rows or raises, and [pool.connect()] either
    hands out a client or rejects. *)

From Stdlib Require Import ZArith NArith Strings.String Strings.Ascii PrimFloat.
From Stdlib Require Import DecimalPos DecimalZ.
From Stdlib Require Uint63.
From stdpp Require Import base decidable option list gmap sorting.

Set Warnings "-register-all".

Local Open Scope Z_scope.

(** ** JavaScript values *)

(** A string is the sequence of its characters, each given by its Unicode
    code point.  Every character that [trim] and [parseInt] inspect
    (white space, sign, decimal digit) lies in the Basic Multilingual Plane,
    so on well-formed strings nothing depends on the UTF-16 encoding. *)
Definition jsstring : Type := list N.

(** ASCII literals of the development, for readability of examples. *)
Definition js (s : string) : jsstring :=
  map N_of_ascii (list_ascii_of_string s).

(** [WhiteSpace] and [LineTerminator] of ECMAScript: the characters that
    [String.prototype.trim] strips and that [parseInt] skips. *)
Definition is_white_space (c : N) : bool :=
  ((9 <=? c) && (c <=? 13) ||
   (c =? 32) || (c =? 160) || (c =? 5760) ||
   (8192 <=? c) && (c <=? 8202) ||
   (c =? 8232) || (c =? 8233) || (c =? 8239) || (c =? 8287) ||
   (c =? 12288) || (c =? 65279))%N.

Fixpoint trimStart (s : jsstring) : jsstring :=
  match s with
  | c :: s' => if is_white_space c then trimStart s' else s
  | [] => []
  end.

Definition trimEnd (s : jsstring) : jsstring :=
  rev (trimStart (rev s)).

Definition trim (s : jsstring) : jsstring :=
  trimEnd (trimStart s).

(** The values [express.json()] and axios can put in a body, plus
    [undefined] for an absent property.  An object is the list of its
    own properties. *)
Inductive JsValue : Type :=
  | VUndefined
  | VNull
  | VBool (b : bool)
  | VNum (x : float)
  | VStr (s : jsstring)
  | VArr (items : list JsValue)
  | VObj (props : list (jsstring * JsValue)).

Definition jsstring_eqb (a b : jsstring) : bool := bool_decide (a = b).

Fixpoint own_prop (props : list (jsstring * JsValue)) (k : jsstring) : JsValue :=
  match props with
  | (k', v) :: rest => if jsstring_eqb k k' then v else own_prop rest k
  | [] => VUndefined
  end.

(** The only exception the handlers can raise by themselves. *)
Inductive JsError : Type := TypeError.

(** [const { k } = body]: the own property of an object; [undefined] on a
    value that has no such property; a [TypeError] when [body] itself is
    [undefined] or [null]. *)
Definition destructure (body : JsValue) (k : jsstring) : JsError + JsValue :=
  match body with
  | VObj props => inr (own_prop props k)
  | VUndefined | VNull => inl TypeError
  | _ => inr VUndefined
  end.

(** [ToBoolean]. *)
Definition truthy (v : JsValue) : bool :=
  match v with
  | VUndefined | VNull => false
  | VBool b => b
  | VNum x => negb ((x =? 0)%float || is_nan x)
  | VStr s => negb (bool_decide (s = []))
  | VArr _ | VObj _ => true
  end.

(** [typeof v === 'boolean'] and [typeof v === 'string']. *)
Definition is_boolean (v : JsValue) : bool :=
  match v with VBool _ => true | _ => false end.

Definition is_string (v : JsValue) : bool :=
  match v with VStr _ => true | _ => false end.

Definition isArray (v : JsValue) : bool :=
  match v with VArr _ => true | _ => false end.

(** *** [parseInt(s, 10)] *)

Definition is_digit (c : N) : bool := ((48 <=? c) && (c <=? 57))%N.

Definition digit_value (c : N) : Z := Z.of_N c - 48.

(** Value of the longest prefix of decimal digits, most significant first. *)
Fixpoint digits_value (acc : Z) (s : jsstring) : Z :=
  match s with
  | c :: s' => if is_digit c then digits_value (10 * acc + digit_value c) s' else acc
  | [] => acc
  end.

(** [None] stands for [NaN].  The result is the mathematical value of the
    digits; [parseInt] rounds it to a double, which is exact on the whole
    range of the [id] column, and the store refuses every value outside
    that range whether rounded or not. *)
Definition parseInt (s : jsstring) : option Z :=
  let s1 := trimStart s in
  let '(sign, s2) :=
    match s1 with
    | c :: r =>
        if (c =? 45)%N then (-1, r)          (* "-" *)
        else if (c =? 43)%N then (1, r)      (* "+" *)
        else (1, s1)
    | [] => (1, s1)
    end in
  match s2 with
  | c :: _ => if is_digit c then Some (sign * digits_value 0 s2) else None
  | [] => None
  end.

Definition isNaN (n : option Z) : bool :=
  match n with None => true | Some _ => false end.

(** *** [`${n}`] for an integer [n] *)

Fixpoint uint_chars (d : Decimal.uint) : jsstring :=
  match d with
  | Decimal.Nil => []
  | Decimal.D0 d => 48%N :: uint_chars d
  | Decimal.D1 d => 49%N :: uint_chars d
  | Decimal.D2 d => 50%N :: uint_chars d
  | Decimal.D3 d => 51%N :: uint_chars d
  | Decimal.D4 d => 52%N :: uint_chars d
  | Decimal.D5 d => 53%N :: uint_chars d
  | Decimal.D6 d => 54%N :: uint_chars d
  | Decimal.D7 d => 55%N :: uint_chars d
  | Decimal.D8 d => 56%N :: uint_chars d
  | Decimal.D9 d => 57%N :: uint_chars d
  end.

(** [Number.prototype.toString] on a number that is the integer [n]
    exactly, below 1e21 in magnitude (every [id] of the table is one, being
    within 32 bits): its decimal digits, after a minus sign when negative.
    Beyond that range a number is written with an exponent or stands for
    another integer, and this function does not apply. *)
Definition Number_toString (n : Z) : jsstring :=
  match Z.to_int n with
  | Decimal.Pos d => uint_chars d
  | Decimal.Neg d => 45%N :: uint_chars d
  end.

(** ** The [todos] table *)

(** A row as the driver hands it to the handlers and as the API sends it. *)
Record Todo : Type := { id : Z; text : jsstring; completed : bool }.

Global Instance Todo_eq_dec : EqDecision Todo.
Proof. solve_decision. Defined.

(** [id SERIAL PRIMARY KEY]: a 32-bit integer drawn from [todos_id_seq]. *)
Definition int4_min : Z := -2147483648.
Definition int4_max : Z := 2147483647.

Definition is_int4 (n : Z) : bool := (int4_min <=? n) && (n <=? int4_max).

(** [text VARCHAR(255) NOT NULL]: assigning a longer value is an error
    unless every character beyond the limit is a space, in which case the
    value is cut at the limit. *)
Definition varchar (limit : nat) (s : jsstring) : option jsstring :=
  if bool_decide (Forall (λ c, c = 32%N) (drop limit s))
  then Some (take limit s) else None.

(** The driver writes a string parameter as UTF-8.  A code point that is
    no Unicode scalar value (in a JavaScript string: a surrogate without its
    partner) has no encoding and goes out as U+FFFD. *)
Definition is_scalar_value (c : N) : bool :=
  ((c <? 55296) || (57344 <=? c) && (c <=? 1114111))%N.

Definition utf8 (s : jsstring) : jsstring :=
  map (λ c, if is_scalar_value c then c else 65533%N) s.

(** The table maps each primary key to the columns [(text, completed)];
    [todos_id_seq] is the last value the sequence handed out, [0] after
    [setup_db.js] created the table.  The column [completed] is only ever
    written by its default [FALSE] and by the update route, which lets
    nothing but a boolean through: it is a [bool] here. *)
Record Database : Type := {
  todos : gmap Z (jsstring * bool);
  todos_id_seq : Z
}.

Definition to_todo (kv : Z * (jsstring * bool)) : Todo :=
  {| id := kv.1; text := kv.2.1; completed := kv.2.2 |}.

(** The four statements of [server.js], with their parameters. *)
Inductive Sql : Type :=
  | SelectAll
      (* SELECT * FROM todos ORDER BY id ASC *)
  | Insert (text : jsstring)
      (* INSERT INTO todos (text) VALUES ($1) RETURNING * *)
  | Update (completed : bool) (todoId : Z)
      (* UPDATE todos SET completed = $1 WHERE id = $2 RETURNING * *)
  | Delete (todoId : Z)
      (* DELETE FROM todos WHERE id = $1 *).

Record QueryResult : Type := { rows : list Todo; rowCount : nat }.

(** What the server can raise on these statements. *)
Inductive PgError : Type :=
  | character_not_in_repertoire      (* a NUL character in a text value *)
  | string_data_right_truncation     (* value too long for VARCHAR(255) *)
  | numeric_value_out_of_range       (* parameter outside the integer type *)
  | sequence_generator_limit_exceeded.

Definition id_le (a b : Todo) : Prop := id a <= id b.

Global Instance id_le_dec a b : Decision (id_le a b).
Proof. unfold id_le. apply _. Defined.

(** [ORDER BY id ASC] over the rows of the table. *)
Definition select_all (d : Database) : list Todo :=
  merge_sort id_le (to_todo <$> map_to_list (todos d)).

(** A statement is atomic: when it raises, the database is as before. *)
Definition query (q : Sql) (d : Database) : (PgError + QueryResult) * Database :=
  match q with
  | SelectAll =>
      let l := select_all d in
      (inr {| rows := l; rowCount := length l |}, d)
  | Insert t =>
      let t := utf8 t in
      if bool_decide (0%N ∈ t) then (inl character_not_in_repertoire, d)
      else match varchar 255 t with
      | None => (inl string_data_right_truncation, d)
      | Some t' =>
          if bool_decide (int4_max <= todos_id_seq d)
          then (inl sequence_generator_limit_exceeded, d)
          else
            let i := todos_id_seq d + 1 in
            (inr {| rows := [ {| id := i; text := t'; completed := false |} ];
                    rowCount := 1 |},
             {| todos := <[i := (t', false)]> (todos d); todos_id_seq := i |})
      end
  | Update c i =>
      if negb (is_int4 i) then (inl numeric_value_out_of_range, d)
      else match todos d !! i with
      | Some (t, _) =>
          (inr {| rows := [ {| id := i; text := t; completed := c |} ];
                  rowCount := 1 |},
           {| todos := <[i := (t, c)]> (todos d); todos_id_seq := todos_id_seq d |})
      | None => (inr {| rows := []; rowCount := 0 |}, d)
      end
  | Delete i =>
      if negb (is_int4 i) then (inl numeric_value_out_of_range, d)
      else match todos d !! i with
      | Some _ =>
          (inr {| rows := []; rowCount := 1 |},
           {| todos := delete i (todos d); todos_id_seq := todos_id_seq d |})
      | None => (inr {| rows := []; rowCount := 0 |}, d)
      end
  end.

(** ** The connection pool *)

(** Whether [pool.connect()] resolves for the request at hand. *)
Inductive Link : Type := Up | Down.

Inductive PoolEvent : Type :=
  | Connect            (* pool.connect() *)
  | Query (q : Sql)    (* client.query(...) *)
  | Release.           (* client.release() *)

(** The state behind the API: the database and the journal of what the
    handlers asked of the pool, oldest first. *)
Record Backend : Type := {
  database : Database;
  journal : list PoolEvent
}.

(** After [setup_db.js]: the table exists and is empty. *)
Definition boot : Backend :=
  {| database := {| todos := ∅; todos_id_seq := 0 |}; journal := [] |}.

(** ** The API service ([server.js]) *)

Inductive Payload : Type :=
  | Todos (l : list Todo)              (* res.json(result.rows) *)
  | Row0 (t : option Todo)             (* res.json(result.rows[0]) *)
  | ErrorBody (error : string)         (* res.json({ error: ... }) *)
  | MessageBody (message : string)     (* res.json({ message: ... }) *).

Record Response : Type := { status : Z; payload : Payload }.

(** A handler either sends a response or its promise rejects with nothing
    sent. *)
Inductive Outcome : Type :=
  | Sent (r : Response)
  | Raised (e : JsError).

(** [res.json(p)] and [res.status(s).json(p)]. *)
Definition json (p : Payload) : Response := {| status := 200; payload := p |}.
Definition status_json (s : Z) (p : Payload) : Response :=
  {| status := s; payload := p |}.

Definition empty_text : Response :=
  status_json 400 (ErrorBody "待办事项内容不能为空").
Definition completed_not_boolean : Response :=
  status_json 400 (ErrorBody "completed 状态必须是布尔值").
Definition invalid_id : Response :=
  status_json 400 (ErrorBody "无效的待办事项 ID").
Definition not_found : Response :=
  status_json 404 (ErrorBody "未找到指定的待办事项").
Definition internal_error : Response :=
  status_json 500 (ErrorBody "服务器内部错误").
Definition deleted : Response :=
  json (MessageBody "待办事项已删除").

Definition record (evs : list PoolEvent) (b : Backend) : Backend :=
  {| database := database b; journal := journal b ++ evs |}.

(** The block every route shares:
    [try { client = await pool.connect();
           try { result = await client.query(q); k(result) }
           finally { client.release() } }
     catch (err) { res.status(500).json({ error }) }]. *)
Definition with_client (link : Link) (q : Sql) (k : QueryResult → Response)
    (b : Backend) : Outcome * Backend :=
  match link with
  | Down => (Sent internal_error, record [Connect] b)
  | Up =>
      let '(r, d) := query q (database b) in
      (Sent match r with
            | inr result => k result
            | inl _ => internal_error
            end,
       {| database := d; journal := journal b ++ [Connect; Query q; Release] |})
  end.

(** [app.get('/api/todos')]. *)
Definition get_api_todos (link : Link) (b : Backend) : Outcome * Backend :=
  with_client link SelectAll (λ result, json (Todos (rows result))) b.

(** [app.post('/api/todos')].  The validation [!text || text.trim() === '']
    runs before the [try]: on a truthy value that is no string, [text.trim]
    is not a function and the call raises. *)
Definition post_api_todos (link : Link) (body : JsValue) (b : Backend)
    : Outcome * Backend :=
  match destructure body (js "text") with
  | inl e => (Raised e, b)
  | inr text =>
      if negb (truthy text) then (Sent empty_text, b)
      else match text with
      | VStr s =>
          if bool_decide (trim s = []) then (Sent empty_text, b)
          else with_client link (Insert s)
                 (λ result, status_json 201 (Row0 (head (rows result)))) b
      | _ => (Raised TypeError, b)
      end
  end.

(** [app.put('/api/todos/:id')]: [completed] is checked first, then [id]. *)
Definition put_api_todos_id (link : Link) (id : jsstring) (body : JsValue)
    (b : Backend) : Outcome * Backend :=
  match destructure body (js "completed") with
  | inl e => (Raised e, b)
  | inr (VBool completed) =>
      match parseInt id with
      | None => (Sent invalid_id, b)
      | Some todoId =>
          with_client link (Update completed todoId)
            (λ result,
               if bool_decide (length (rows result) = 0%nat) then not_found
               else json (Row0 (head (rows result)))) b
      end
  | inr _ => (Sent completed_not_boolean, b)
  end.

(** [app.delete('/api/todos/:id')]. *)
Definition delete_api_todos_id (link : Link) (id : jsstring) (b : Backend)
    : Outcome * Backend :=
  match parseInt id with
  | None => (Sent invalid_id, b)
  | Some todoId =>
      with_client link (Delete todoId)
        (λ result,
           if bool_decide (rowCount result = 0%nat) then not_found
           else deleted) b
  end.

Inductive Request : Type :=
  | GET_todos
  | POST_todos (body : JsValue)
  | PUT_todos_id (id : jsstring) (body : JsValue)
  | DELETE_todos_id (id : jsstring).

Definition handle (link : Link) (req : Request) (b : Backend)
    : Outcome * Backend :=
  match req with
  | GET_todos => get_api_todos link b
  | POST_todos body => post_api_todos link body b
  | PUT_todos_id id body => put_api_todos_id link id body b
  | DELETE_todos_id id => delete_api_todos_id link id b
  end.

(** The backend after a sequence of requests, each with the state of the
    link at its time. *)
Definition run (script : list (Link * Request)) (b : Backend) : Backend :=
  foldl (λ b lr, (handle lr.1 lr.2 b).2) b script.

(** ** The client ([App.tsx]) *)

(** The body [{ completed: c }]. *)
Definition completed_body (c : bool) : JsValue :=
  VObj [(js "completed", VBool c)].

Module App.

(** The request [toggleComplete(id, currentStatus)] sends:
    [axios.put(`/api/todos/${id}`, { completed: !currentStatus })]. *)
Definition toggleComplete (id : Z) (currentStatus : bool) : Request :=
  PUT_todos_id (Number_toString id) (completed_body (negb currentStatus)).

(** The three [useState] cells.  The type annotation [Todo[]] is erased
    at run time: the list holds whatever items the response carried. *)
Record State : Type := {
  todos : list JsValue;
  newTodoText : jsstring;
  error : option string
}.

Definition setTodos (l : list JsValue) (st : State) : State :=
  {| todos := l; newTodoText := newTodoText st; error := error st |}.

Definition setError (e : option string) (st : State) : State :=
  {| todos := todos st; newTodoText := newTodoText st; error := e |}.

(** What comes back to a request: a response with its status and parsed
    body, or no response at all. *)
Inductive Reply : Type :=
  | Answered (status : Z) (data : JsValue)
  | NoAnswer.

(** With the default [validateStatus], the promise of [axios.get]
    resolves to a response (of which the client reads [data]) on a 2xx
    status and rejects on anything else. *)
Definition axios_get (r : Reply) : option JsValue :=
  match r with
  | Answered status data =>
      if (200 <=? status) && (status <? 300) then Some data else None
  | NoAnswer => None
  end.

(** [fetchTodos], from the call to the end of its [try]/[catch]. *)
Definition fetchTodos (r : Reply) (st : State) : State :=
  let st := setError None st in
  match axios_get r with
  | Some data =>
      match data with
      | VArr items => setTodos items st
      | _ =>
          setTodos [] (setError (Some "从服务器获取的数据格式不正确。"%string) st)
      end
  | None =>
      setTodos []
        (setError (Some "无法加载待办事项，请检查后端服务或网络连接。"%string) st)
  end.

(** What the component draws: the error paragraph, the list items, and
    the placeholder of the empty list. *)
Record View : Type := {
  error_message : option string;
  items : list JsValue;
  empty_message : bool
}.

Definition shown (e : option string) : bool :=
  match e with
  | Some msg => negb (msg =? "")%string
  | None => false
  end.

Definition render (st : State) : View :=
  {| error_message := if shown (error st) then error st else None;
     items := todos st;
     empty_message := negb (shown (error st)) && bool_decide (length (todos st) = 0%nat) |}.

(** The request [deleteTodo(id)] sends: [axios.delete(`/api/todos/${id}`)]. *)
Definition deleteTodo (id : Z) : Request :=
  DELETE_todos_id (Number_toString id).

(** The request [addTodo] sends, if any: none on the early [return] taken
    when the trimmed input is empty. *)
Definition addTodo (st : State) : option Request :=
  if bool_decide (trim (newTodoText st) = []) then None
  else Some (POST_todos (VObj [(js "text", VStr (newTodoText st))])).

Definition setNewTodoText (s : jsstring) (st : State) : State :=
  {| todos := todos st; newTodoText := s; error := error st |}.

(** [axios.post], [axios.put] and [axios.delete] settle as [axios.get]
    does; the client does not read what they resolve to. *)
Definition resolves (r : Reply) : bool :=
  match axios_get r with Some _ => true | None => false end.

(** The three mutations from [setError(null)] to the moment their request
    has settled: the state then, and whether [fetchTodos()] is called. *)
Definition addTodo_settled (r : Reply) (st : State) : State * bool :=
  let st := setError None st in
  if resolves r then (setNewTodoText [] st, true)
  else (setError (Some "无法添加待办事项，请稍后再试。"%string) st, false).

Definition toggleComplete_settled (r : Reply) (st : State) : State * bool :=
  let st := setError None st in
  if resolves r then (st, true)
  else (setError (Some "无法更新状态，请稍后再试。"%string) st, false).

Definition deleteTodo_settled (r : Reply) (st : State) : State * bool :=
  let st := setError None st in
  if resolves r then (st, true)
  else (setError (Some "无法删除待办事项，请稍后再试。"%string) st, false).

End App.

(** ** Client and server together *)

(** The characters of a string constant of the source: its UTF-8 bytes
    read back as code points. *)
Fixpoint utf8_decode (bs : list N) : jsstring :=
  match bs with
  | [] => []
  | b0 :: r0 =>
      if (b0 <? 128)%N then b0 :: utf8_decode r0
      else if (b0 <? 224)%N then
        match r0 with
        | b1 :: r1 => ((b0 - 192) * 64 + (b1 - 128))%N :: utf8_decode r1
        | _ => [65533%N]
        end
      else if (b0 <? 240)%N then
        match r0 with
        | b1 :: b2 :: r2 =>
            ((b0 - 224) * 4096 + (b1 - 128) * 64 + (b2 - 128))%N
              :: utf8_decode r2
        | _ => [65533%N]
        end
      else
        match r0 with
        | b1 :: b2 :: b3 :: r3 =>
            ((b0 - 240) * 262144 + (b1 - 128) * 4096
             + (b2 - 128) * 64 + (b3 - 128))%N :: utf8_decode r3
        | _ => [65533%N]
        end
  end.

Definition chars (s : string) : jsstring := utf8_decode (js s).

(** An [id] as the JavaScript number the driver and JSON carry: exact on
    the whole range of the column. *)
Definition number (n : Z) : float :=
  match n with
  | Z0 => 0%float
  | Zpos _ => PrimFloat.of_uint63 (Uint63.of_Z n)
  | Zneg _ => (- PrimFloat.of_uint63 (Uint63.of_Z (- n)))%float
  end.

(** A row as JSON: the columns in the order of the table. *)
Definition todo_data (t : Todo) : JsValue :=
  VObj [(js "id", VNum (number (id t)));
        (js "text", VStr (text t));
        (js "completed", VBool (completed t))].

(** [res.json(p)] as [response.data] on the other side.  ([rows[0]] of no
    rows is [undefined], for which Express sends an empty body.) *)
Definition payload_data (p : Payload) : JsValue :=
  match p with
  | Todos l => VArr (todo_data <$> l)
  | Row0 (Some t) => todo_data t
  | Row0 None => VStr []
  | ErrorBody msg => VObj [(js "error", VStr (chars msg))]
  | MessageBody msg => VObj [(js "message", VStr (chars msg))]
  end.

(** What the client gets for a request: the response the handler sent; and
    no response when the handler raised. *)
Definition deliver (o : Outcome) : App.Reply :=
  match o with
  | Sent r => App.Answered (status r) (payload_data (payload r))
  | Raised _ => App.NoAnswer
  end.

Module Session.

Record World : Type := { client : App.State; server : Backend }.

(** What the user does: the page loads ([useEffect]), the input changes,
    the form is submitted, a checkbox or a delete button of an item is
    clicked. *)
Inductive Action : Type :=
  | Load
  | Type_ (s : jsstring)
  | Submit
  | Toggle (id : Z) (completed : bool)
  | Remove (id : Z).

Definition fetchTodos (link : Link) (w : World) : World :=
  let '(o, b) := get_api_todos link (server w) in
  {| client := App.fetchTodos (deliver o) (client w); server := b |}.

(** A mutation: the request goes out, the handler runs, the client
    continues on the settled promise and, if it resolved, fetches the list
    again ([link'] is the state of the link by then).  The result is the
    world once all of this has settled: what the page holds in between
    (see [pending]) is not a state of this model, and neither is an action
    begun before the previous one has settled. *)
Definition mutate (link link' : Link) (req : Request)
    (settled : App.Reply → App.State → App.State * bool) (w : World) : World :=
  let '(o, b) := handle link req (server w) in
  let '(st, refetch) := settled (deliver o) (client w) in
  if refetch then fetchTodos link' {| client := st; server := b |}
  else {| client := st; server := b |}.

Definition act (link link' : Link) (a : Action) (w : World) : World :=
  match a with
  | Load => fetchTodos link w
  | Type_ s => {| client := App.setNewTodoText s (client w); server := server w |}
  | Submit =>
      match App.addTodo (client w) with
      | Some req => mutate link link' req App.addTodo_settled w
      | None => w
      end
  | Toggle id completed =>
      mutate link link' (App.toggleComplete id completed)
        App.toggleComplete_settled w
  | Remove id =>
      mutate link link' (App.deleteTodo id) App.deleteTodo_settled w
  end.

(** A session: the actions of one user, run one after another, each to
    its end before the next begins, each with the state of the link at its
    request and at its refetch.  Nothing else writes the table. *)
Definition play (script : list (Link * Link * Action)) (w : World) : World :=
  foldl (λ w lla, act lla.1.1 lla.1.2 lla.2 w) w script.

(** The page before its first fetch, in front of a backend. *)
Definition open (b : Backend) : World :=
  {| client := {| App.todos := []; App.newTodoText := []; App.error := None |};
     server := b |}.

(** What the page holds while the request of a mutation is pending: the
    state its [setError(null)] left. *)
Definition pending (w : World) : World :=
  {| client := App.setError None (client w); server := server w |}.

End Session.

(** ** The schema initializer ([setup_db.js]) *)

Module SetupDb.

(** [process.env]: each variable is a string or absent. *)
Record Env : Type := {
  PGHOST : option jsstring;
  PGPORT : option jsstring;
  PGUSER : option jsstring;
  PGPASSWORD : option jsstring;
  PGDATABASE : option jsstring;
  PGSSLMODE : option jsstring
}.

(** [!v] on a variable of the environment. *)
Definition unset (v : option jsstring) : bool :=
  match v with
  | None => true
  | Some s => bool_decide (s = [])
  end.

(** How one of the two steps goes on the side of the server: the
    connection is refused, the statement raises, or both succeed.  An error
    carries its [code], if it has one. *)
Inductive Attempt : Type :=
  | ConnectFails (code : option jsstring)
  | QueryFails (code : option jsstring)
  | Succeeds.

Inductive Statement : Type :=
  | CreateDatabase (name : jsstring)   (* `CREATE DATABASE ${targetDatabase}` *)
  | CreateTable                        (* createTableQuery *).

(** What the script does to the outside, in order. *)
Inductive Event : Type :=
  | NewPool (database : jsstring) (ssl : bool)   (* new Pool({...}) *)
  | Connect                                      (* pool.connect() resolved *)
  | Query (s : Statement)                        (* client.query(...) *)
  | Release                                      (* client.release() *)
  | End_                                         (* pool.end() *)
  | Exit (code : Z)                              (* process.exit(code) *).

(** [err.code === '42P04']. *)
Definition duplicate_database (code : option jsstring) : bool :=
  bool_decide (code = Some (js "42P04")).

(** Steps 1 and 2 of [setupDatabase()], once the configuration has been
    read: the events up to the end of the function or to the
    [process.exit] that cuts it short (a pending [finally] does not run
    then). *)
Definition steps (targetDatabase : jsstring) (ssl : bool)
    (first second : Attempt) : list Event :=
  let postgres := NewPool (js "postgres") ssl in
  let create := Query (CreateDatabase targetDatabase) in
  (* step 1: [catch] releases, ends the pool and exits unless the code is
     42P04; otherwise [finally] releases and ends the pool *)
  let '(step1, go_on) :=
    match first with
    | ConnectFails code =>
        if duplicate_database code then ([postgres; End_], true)
        else ([postgres; End_; Exit 1], false)
    | QueryFails code =>
        if duplicate_database code
        then ([postgres; Connect; create; Release; End_], true)
        else ([postgres; Connect; create; Release; End_; Exit 1], false)
    | Succeeds => ([postgres; Connect; create; Release; End_], true)
    end in
  if negb go_on then step1
  else
    (* step 2: [catch] exits at once *)
    step1 ++
    NewPool targetDatabase ssl ::
    match second with
    | ConnectFails _ => [Exit 1]
    | QueryFails _ => [Connect; Query CreateTable; Exit 1]
    | Succeeds => [Connect; Query CreateTable; Release; End_]
    end.

(** [setupDatabase()]. *)
Definition setupDatabase (env : Env) (first second : Attempt) : list Event :=
  if unset (PGHOST env) || unset (PGPORT env) || unset (PGUSER env)
     || unset (PGPASSWORD env) || unset (PGDATABASE env)
  then [Exit 1]
  else
    steps (default [] (PGDATABASE env))
      (bool_decide (PGSSLMODE env = Some (js "require"))) first second.

(** The process ends with status 1 when [process.exit(1)] was called, and
    with 0 when the function ran to its end. *)
Definition exit_status (events : list Event) : Z :=
  match last events with
  | Some (Exit code) => code
  | _ => 0
  end.

End SetupDb.

(** ** Vocabulary of the statements *)

(** A string of white space only (the empty string included). *)
Definition blank (s : jsstring) : Prop := Forall (λ c, is_white_space c = true) s.

(** The [text] values the validation rejects in the claim's three cases:
    absent, the empty string, a string of white space only. *)
Definition missing_or_blank (text : JsValue) : Prop :=
  text = VUndefined ∨ ∃ s, text = VStr s ∧ blank s.

(** The number a run of decimal digits denotes, read left to right. *)
Definition decimal (ds : jsstring) : Z :=
  foldl (λ acc c, 10 * acc + digit_value c) 0 ds.

Definition digits (ds : jsstring) : Prop := Forall (λ c, is_digit c = true) ds.

(** [rest] does not go on with a digit. *)
Definition stops (rest : jsstring) : Prop :=
  match rest with c :: _ => is_digit c = false | [] => True end.

(** The invariant of the table: the sequence stays within the column type
    and every key present was handed out by it. *)
Definition wf (d : Database) : Prop :=
  0 ≤ todos_id_seq d ≤ int4_max ∧
  ∀ i, is_Some (todos d !! i) → 1 ≤ i ≤ todos_id_seq d.

(** Strictly ascending [id]. *)
Definition id_lt (a b : Todo) : Prop := id a < id b.

(** What a statement can do to the database. *)
Inductive effect (d : Database) : Database → Prop :=
  | effect_none : effect d d
  | effect_insert t :
      todos_id_seq d < int4_max →
      effect d {| todos := <[todos_id_seq d + 1 := (t, false)]> (todos d);
                  todos_id_seq := todos_id_seq d + 1 |}
  | effect_update i t c0 c :
      todos d !! i = Some (t, c0) →
      effect d {| todos := <[i := (t, c)]> (todos d);
                  todos_id_seq := todos_id_seq d |}
  | effect_delete i :
      is_Some (todos d !! i) →
      effect d {| todos := delete i (todos d);
                  todos_id_seq := todos_id_seq d |}.

(** Counting the creates of a script: the requests answered 201. *)
Definition is_created (o : Outcome) : bool :=
  match o with
  | Sent r => status r =? 201
  | Raised _ => false
  end.

Fixpoint created (script : list (Link * Request)) (b : Backend) : nat :=
  match script with
  | [] => 0
  | (link, req) :: rest =>
      ((if is_created (handle link req b).1 then 1 else 0)
       + created rest (handle link req b).2)%nat
  end.

Definition is_delete (req : Request) : bool :=
  match req with DELETE_todos_id _ => true | _ => false end.

Definition no_deletes (script : list (Link * Request)) : Prop :=
  Forall (λ lr, is_delete lr.2 = false) script.

(** A string without unpaired surrogates. *)
Definition well_formed (s : jsstring) : Prop :=
  Forall (λ c, is_scalar_value c = true) s.

(** How a route can end: a validation answer, an exception, a refused
    connection, or one statement between checkout and release. *)
Inductive ending (link : Link) (b : Backend) : Outcome → Backend → Prop :=
  | ended_rejected r :
      r ∈ [empty_text; completed_not_boolean; invalid_id] →
      ending link b (Sent r) b
  | ended_raised : ending link b (Raised TypeError) b
  | ended_refused :
      link = Down →
      ending link b (Sent internal_error) (record [Connect] b)
  | ended_served q r d :
      link = Up →
      status r ∈ [200; 201; 404; 500] →
      (status r = 500 → r = internal_error) →
      (status r ∈ [404; 500] → d = database b) →
      effect (database b) d →
      ending link b (Sent r)
        {| database := d;
           journal := journal b ++ [Connect; Query q; Release] |}.

(** Journals in which every statement sits between a checkout and the
    release of the client, and a checkout without statement is a refused
    one. *)
Inductive balanced : list PoolEvent → Prop :=
  | balanced_nil : balanced []
  | balanced_refused l : balanced l → balanced (l ++ [Connect])
  | balanced_served l q :
      balanced l → balanced (l ++ [Connect; Query q; Release]).

Definition is_query (e : PoolEvent) : bool :=
  match e with Query _ => true | _ => false end.

Definition is_release (e : PoolEvent) : bool :=
  match e with Release => true | _ => false end.

Definition is_connect (e : PoolEvent) : bool :=
  match e with Connect => true | _ => false end.

(** The body [{ text: s }]. *)
Definition text_body (s : jsstring) : JsValue := VObj [(js "text", VStr s)].

(** The client's list is the table: one item per row, in the order of the
    list route. *)
Definition mirrors (w : Session.World) : Prop :=
  App.todos (Session.client w)
  = todo_data <$> select_all (database (Session.server w)).

(** What the page can be showing: the table as it is, or nothing but an
    error message. *)
Definition consistent (w : Session.World) : Prop :=
  mirrors w ∨
  App.todos (Session.client w) = [] ∧
  App.shown (App.error (Session.client w)) = true.

(** The requests the client can send. *)
Definition from_client (req : Request) : Prop :=
  req = GET_todos ∨
  (∃ st, App.addTodo st = Some req) ∨
  (∃ i c, req = App.toggleComplete i c) ∨
  (∃ i, req = App.deleteTodo i).

(** What the three continuations of a mutation have in common: on a
    resolved promise the list is fetched again, on a rejected one it is
    not, the list is kept and an error message is set. *)
Definition settles (settled : App.Reply → App.State → App.State * bool) : Prop :=
  ∀ r st,
    if App.resolves r then (settled r st).2 = true
    else (settled r st).2 = false ∧
         App.todos (settled r st).1 = App.todos st ∧
         App.shown (App.error (settled r st).1) = true.

(** The strings [parseInt] reads as [n]: white space, an optional sign, at
    least one decimal digit, then anything that does not go on with a
    digit. *)
Definition integer_prefix (p : jsstring) (n : Z) : Prop :=
  ∃ ws sg ds rest,
    p = ws ++ sg ++ ds ++ rest ∧ blank ws ∧
    (sg = [] ∨ sg = [45%N] ∨ sg = [43%N]) ∧
    ds ≠ [] ∧ digits ds ∧ stops rest ∧
    n = (if bool_decide (sg = [45%N]) then -1 else 1) * decimal ds.

(** A Todo with its [completed] set. *)
Definition set_completed (c : bool) (t : Todo) : Todo :=
  {| id := id t; text := text t; completed := c |}.

(** Vocabulary for the schema initializer. *)
Definition complete (env : SetupDb.Env) : Prop :=
  SetupDb.unset (SetupDb.PGHOST env) = false ∧
  SetupDb.unset (SetupDb.PGPORT env) = false ∧
  SetupDb.unset (SetupDb.PGUSER env) = false ∧
  SetupDb.unset (SetupDb.PGPASSWORD env) = false ∧
  SetupDb.unset (SetupDb.PGDATABASE env) = false.

(** Step 1 went through, or failed only because the database exists. *)
Definition benign (a : SetupDb.Attempt) : Prop :=
  match a with
  | SetupDb.Succeeds => True
  | SetupDb.ConnectFails code | SetupDb.QueryFails code =>
      code = Some (js "42P04")
  end.

(** The pools and clients left open by a sequence of events; [None] when
    an event comes out of order: a checkout without a pool, a statement or a
    release without a client, the end of a pool whose client is out,
    anything after the exit. *)
Fixpoint track (events : list SetupDb.Event) (pools clients : nat)
    : option (nat * nat) :=
  match events with
  | [] => Some (pools, clients)
  | SetupDb.NewPool _ _ :: rest => track rest (S pools) clients
  | SetupDb.Connect :: rest =>
      match pools with
      | S _ => track rest pools (S clients)
      | O => None
      end
  | SetupDb.Query _ :: rest =>
      match clients with
      | S _ => track rest pools clients
      | O => None
      end
  | SetupDb.Release :: rest =>
      match clients with
      | S c => track rest pools c
      | O => None
      end
  | SetupDb.End_ :: rest =>
      match pools, clients with
      | S p, O => track rest p O
      | _, _ => None
      end
  | SetupDb.Exit _ :: rest =>
      match rest with
      | [] => Some (pools, clients)
      | _ => None
      end
  end.

(** What holds of every text in the table. *)
Definition stored_text (t : jsstring) : Prop :=
  (¬ blank t) ∧ (length t ≤ 255)%nat ∧ (0%N ∉ t) ∧ well_formed t.

Definition texts_kept (d : Database) : Prop :=
  ∀ i t c, todos d !! i = Some (t, c) → stored_text t.

(** * Properties *)

(** ** White space and [trim] *)

Lemma trimStart_blank s : blank s → trimStart s = [].
Proof.
  induction 1 as [|c s Hc _ IH]; simpl; [done|]. by rewrite Hc.
Qed.

Lemma trim_blank s : blank s → trim s = [].
Proof.
  intros Hs. unfold trim, trimEnd. by rewrite (trimStart_blank s Hs).
Qed.

(** ** Create: validation *)

(** C2, as amended: a create request whose body is there to be
    destructured (any value but [undefined] and [null]: the object the JSON
    parser delivered) and whose [text] is missing, empty or made of white
    space only is answered 400 with the error payload, whatever the state of
    the link; the pool is not asked for anything (the journal is as before)
    and the table and its sequence are untouched. *)
Theorem create_blank_rejected link body text b :
  destructure body (js "text") = inr text →
  missing_or_blank text →
  post_api_todos link body b = (Sent empty_text, b) ∧
  status empty_text = 400 ∧
  (∃ msg, payload empty_text = ErrorBody msg).
Proof.
  intros Hd Hblank. unfold post_api_todos. rewrite Hd.
  split; [|split; [done|by eexists]].
  destruct Hblank as [->|(s & -> & Hs)]; [done|].
  destruct (truthy (VStr s)); simpl; [|done].
  by rewrite bool_decide_eq_true_2 by by apply trim_blank.
Qed.

Lemma create_blank_rejected_witness :
  post_api_todos Up (VObj [(js "text", VStr (js "   "))]) boot
    = (Sent empty_text, boot).
Proof.
  refine (proj1 (create_blank_rejected Up _ (VStr (js "   ")) boot _ _)).
  - reflexivity.
  - right. exists (js "   "). split; [reflexivity|].
    repeat constructor.
Defined.

(** C2 as stated fails: when the request has no body at all, the [text]
    field is missing, yet [const { text } = req.body] raises a [TypeError]
    before the validation and no 400 is sent. *)
Lemma create_without_body_raises :
  destructure VUndefined (js "text") = inl TypeError ∧
  post_api_todos Up VUndefined boot = (Raised TypeError, boot) ∧
  (∀ r, (post_api_todos Up VUndefined boot).1 ≠ Sent r).
Proof. split; [done|]. split; [done|]. intros r Hr. discriminate Hr. Qed.

(** ** Create: values that are no strings *)

Lemma create_truthy_not_string link body text b :
  destructure body (js "text") = inr text →
  truthy text = true → is_string text = false →
  post_api_todos link body b = (Raised TypeError, b).
Proof.
  intros Hd Ht Hs. unfold post_api_todos. rewrite Hd, Ht. simpl.
  by destruct text.
Qed.

(** C10: there are create requests whose [text] is truthy and no string (a
    number, an object) on which [text.trim()] raises a [TypeError] before the
    [try] block is entered: nothing is sent, neither the 400 nor the 500,
    and the pool is not touched. *)
Theorem create_validation_not_total :
  ∃ n o : JsValue,
    (∃ x, n = VNum x) ∧ (∃ props, o = VObj props) ∧
    truthy n = true ∧ truthy o = true ∧
    ∀ link b,
      post_api_todos link (VObj [(js "text", n)]) b = (Raised TypeError, b) ∧
      post_api_todos link (VObj [(js "text", o)]) b = (Raised TypeError, b) ∧
      (∀ r, (post_api_todos link (VObj [(js "text", n)]) b).1 ≠ Sent r).
Proof.
  exists (VNum 5), (VObj []).
  split; [by eexists|]. split; [by eexists|].
  split; [reflexivity|]. split; [reflexivity|].
  intros link b.
  rewrite (create_truthy_not_string link (VObj [(js "text", VNum 5)]) (VNum 5) b)
    by reflexivity.
  rewrite (create_truthy_not_string link (VObj [(js "text", VObj [])]) (VObj []) b)
    by reflexivity.
  done.
Qed.

(** ** [parseInt] *)

Ltac char_cases :=
  unfold is_digit, is_white_space in *;
  repeat match goal with
         | |- context [(?a <=? ?b)%N] => destruct (N.leb_spec a b)
         | |- context [(?a =? ?b)%N] => destruct (N.eqb_spec a b)
         | H : context [(?a <=? ?b)%N] |- _ => destruct (N.leb_spec a b)
         | H : context [(?a =? ?b)%N] |- _ => destruct (N.eqb_spec a b)
         end;
  simpl in *; try done; try lia.

Lemma digit_not_white_space c : is_digit c = true → is_white_space c = false.
Proof. intros H. char_cases. Qed.

Lemma digit_not_sign c :
  is_digit c = true → (c =? 45)%N = false ∧ (c =? 43)%N = false.
Proof. intros H. split; char_cases. Qed.

Lemma digits_value_prefix acc ds rest :
  digits ds → stops rest →
  digits_value acc (ds ++ rest)
    = foldl (λ acc c, 10 * acc + digit_value c) acc ds.
Proof.
  intros Hds Hrest. revert acc.
  induction Hds as [|c ds Hc _ IH]; intros acc; simpl.
  - destruct rest as [|c rest]; simpl in *; [done|]. by rewrite Hrest.
  - by rewrite Hc, IH.
Qed.

Lemma parseInt_leading_digit c s :
  is_digit c = true → parseInt (c :: s) = Some (digits_value 0 (c :: s)).
Proof.
  intros Hc. unfold parseInt. cbn [trimStart].
  rewrite (digit_not_white_space c Hc).
  destruct (digit_not_sign c Hc) as [-> ->].
  rewrite Hc. f_equal. lia.
Qed.

Lemma parseInt_prefix ds rest :
  ds ≠ [] → digits ds → stops rest →
  parseInt (ds ++ rest) = Some (decimal ds).
Proof.
  intros Hne Hds Hrest. destruct ds as [|c ds]; [done|].
  rewrite <- app_comm_cons, parseInt_leading_digit by by inversion Hds.
  by rewrite app_comm_cons, digits_value_prefix.
Qed.

(** *** Reading back a printed integer *)

Lemma uint_chars_digits d : digits (uint_chars d).
Proof. induction d; simpl; by constructor. Qed.

Lemma uint_chars_nonnil d : d ≠ Decimal.Nil → uint_chars d ≠ [].
Proof. by destruct d. Qed.

Lemma decimal_uint_acc d p :
  foldl (λ acc c, 10 * acc + digit_value c) (Z.pos p) (uint_chars d)
    = Z.pos (Pos.of_uint_acc d p).
Proof.
  revert p. induction d; intros p; simpl; try done;
    unfold digit_value; simpl;
    match goal with
    | |- foldl _ ?z _ = _ =>
        first [ replace z with (Z.pos (10 * p)) by lia
              | replace z with (Z.pos (1 + 10 * p)) by lia
              | replace z with (Z.pos (2 + 10 * p)) by lia
              | replace z with (Z.pos (3 + 10 * p)) by lia
              | replace z with (Z.pos (4 + 10 * p)) by lia
              | replace z with (Z.pos (5 + 10 * p)) by lia
              | replace z with (Z.pos (6 + 10 * p)) by lia
              | replace z with (Z.pos (7 + 10 * p)) by lia
              | replace z with (Z.pos (8 + 10 * p)) by lia
              | replace z with (Z.pos (9 + 10 * p)) by lia ]
    end; apply IHd.
Qed.

Lemma decimal_uint d : decimal (uint_chars d) = Z.of_N (Pos.of_uint d).
Proof.
  unfold decimal. induction d; cbn [uint_chars foldl]; try done;
    match goal with
    | |- foldl _ ?z _ = _ =>
        let z' := eval vm_compute in z in change z with z'
    end; by rewrite decimal_uint_acc.
Qed.

Lemma parseInt_uint d :
  d ≠ Decimal.Nil → parseInt (uint_chars d) = Some (Z.of_uint d).
Proof.
  intros Hd. rewrite <- (app_nil_r (uint_chars d)).
  rewrite parseInt_prefix; [|by apply uint_chars_nonnil|apply uint_chars_digits|done].
  by rewrite decimal_uint.
Qed.

Lemma parseInt_Number_toString n : parseInt (Number_toString n) = Some n.
Proof.
  rewrite <- (DecimalZ.of_to n) at 2. unfold Number_toString.
  destruct n as [|p|p]; cbn [Z.to_int Z.of_int].
  - reflexivity.
  - apply parseInt_uint, DecimalPos.Unsigned.to_uint_nonnil.
  - pose proof (DecimalPos.Unsigned.to_uint_nonnil p) as Hnil.
    pose proof (parseInt_uint _ Hnil) as Hp.
    pose proof (uint_chars_nonnil _ Hnil) as Hne.
    pose proof (uint_chars_digits (Pos.to_uint p)) as Hds.
    destruct (uint_chars (Pos.to_uint p)) as [|c s] eqn:E; [done|].
    assert (Hc : is_digit c = true) by by inversion Hds.
    rewrite parseInt_leading_digit in Hp by done.
    unfold parseInt. cbn [trimStart]. 
    change (is_white_space 45) with false. cbn iota.
    change (45 =? 45)%N with true. cbn iota.
    rewrite Hc. injection Hp as <-. f_equal; lia.
Qed.

(** ** The store *)

Global Instance id_le_trans : Transitive id_le.
Proof. unfold id_le. intros a b c. lia. Qed.

Global Instance id_le_total : Total id_le.
Proof. unfold id_le. intros a b. lia. Qed.

Lemma select_all_perm d :
  select_all d ≡ₚ to_todo <$> map_to_list (todos d).
Proof. apply merge_sort_Permutation. Qed.

Lemma elem_of_select_all d todo :
  todo ∈ select_all d ↔
  todos d !! id todo = Some (text todo, completed todo).
Proof.
  rewrite select_all_perm, list_elem_of_fmap. split.
  - intros ([i [t c]] & -> & Hin). by apply elem_of_map_to_list in Hin.
  - intros Hl. exists (id todo, (text todo, completed todo)). split.
    + by destruct todo.
    + by apply elem_of_map_to_list.
Qed.

Lemma select_all_length d : length (select_all d) = size (todos d).
Proof.
  by rewrite select_all_perm, length_fmap, length_map_to_list.
Qed.

Lemma select_all_NoDup_id d : NoDup (id <$> select_all d).
Proof.
  rewrite select_all_perm, <- list_fmap_compose.
  apply (NoDup_fst_map_to_list (todos d)).
Qed.

Lemma sorted_strict l :
  StronglySorted id_le l → NoDup (id <$> l) → StronglySorted id_lt l.
Proof.
  induction 1 as [|a l _ IH Hall]; intros Hnd; [constructor|].
  rewrite fmap_cons in Hnd. apply NoDup_cons in Hnd as [Hnotin Hnd].
  constructor; [by apply IH|].
  rewrite Forall_forall in Hall |- *. intros b Hb.
  specialize (Hall b Hb). unfold id_le, id_lt in *.
  assert (id a ≠ id b); [|lia].
  intros Heq. apply Hnotin. rewrite Heq. by apply list_elem_of_fmap_2.
Qed.

Lemma select_all_sorted d : StronglySorted id_lt (select_all d).
Proof.
  apply sorted_strict.
  - apply StronglySorted_merge_sort; apply _.
  - apply select_all_NoDup_id.
Qed.

Lemma select_all_empty seq :
  select_all {| todos := ∅; todos_id_seq := seq |} = [].
Proof. unfold select_all. simpl. by rewrite map_to_list_empty. Qed.

(** *** Invariants of the statements *)

Lemma is_int4_spec n : is_int4 n = true ↔ int4_min ≤ n ≤ int4_max.
Proof. unfold is_int4. rewrite andb_true_iff, !Z.leb_le. done. Qed.

Lemma wf_int4 d i : wf d → is_Some (todos d !! i) → is_int4 i = true.
Proof.
  intros [Hseq Hkeys] Hi. apply is_int4_spec.
  specialize (Hkeys i Hi). unfold int4_min, int4_max in *. lia.
Qed.

Lemma wf_next_fresh d : wf d → todos d !! (todos_id_seq d + 1) = None.
Proof.
  intros [_ Hkeys]. apply eq_None_not_Some. intros Hs.
  specialize (Hkeys _ Hs). lia.
Qed.

Lemma query_effect q d : effect d (query q d).2.
Proof.
  destruct q as [|t|c i|i]; unfold query.
  - constructor.
  - cbv zeta. case_bool_decide; [constructor|].
    destruct (varchar 255 (utf8 t)) as [t'|]; [|constructor].
    case_bool_decide; [constructor|]. simpl. apply effect_insert. lia.
  - destruct (negb (is_int4 i)); [constructor|].
    destruct (todos d !! i) as [[t c0]|] eqn:Hrow; [|constructor].
    simpl. by eapply effect_update.
  - destruct (negb (is_int4 i)); [constructor|].
    destruct (todos d !! i) as [r|] eqn:Hrow; [|constructor].
    simpl. by apply effect_delete.
Qed.

Lemma effect_wf d d' : effect d d' → wf d → wf d'.
Proof.
  intros He [Hseq Hkeys].
  destruct He as [|t Hlt|i t c0 c Hrow|i Hrow]; [done|..];
    (split; simpl; [lia|]); intros k.
  - rewrite lookup_insert_is_Some.
    intros [<-|[_ Hk]]; [lia|]. specialize (Hkeys k Hk). lia.
  - rewrite lookup_insert_is_Some.
    intros [<-|[_ Hk]]; [|by apply Hkeys]. apply Hkeys. by rewrite Hrow.
  - rewrite lookup_delete_is_Some. intros [_ Hk]. by apply Hkeys.
Qed.

Lemma effect_seq_mono d d' : effect d d' → todos_id_seq d ≤ todos_id_seq d'.
Proof. destruct 1; simpl; lia. Qed.

(** A key the sequence has passed and that is absent stays absent. *)
Lemma effect_absent d d' i :
  effect d d' → wf d → i ≤ todos_id_seq d → todos d !! i = None →
  todos d' !! i = None.
Proof.
  intros He [Hseq Hkeys] Hi Hnone.
  destruct He as [|t Hlt|j t c0 c Hrow|j Hrow]; simpl; [done|..].
  - rewrite lookup_insert_ne; [done|lia].
  - rewrite lookup_insert_ne; [done|]. intros ->. by rewrite Hnone in Hrow.
  - rewrite lookup_delete_ne; [done|]. intros ->.
    rewrite Hnone in Hrow. by destruct Hrow.
Qed.

Lemma query_wf q d : wf d → wf (query q d).2.
Proof. apply effect_wf, query_effect. Qed.

Lemma query_seq_mono q d : todos_id_seq d ≤ todos_id_seq (query q d).2.
Proof. apply effect_seq_mono, query_effect. Qed.

Lemma query_absent q d i :
  wf d → i ≤ todos_id_seq d → todos d !! i = None →
  todos (query q d).2 !! i = None.
Proof. apply effect_absent, query_effect. Qed.

(** *** From statements to requests *)

Lemma with_client_database link q k b :
  database (with_client link q k b).2 = database b ∨
  database (with_client link q k b).2 = (query q (database b)).2.
Proof.
  unfold with_client. destruct link; [right|by left].
  by destruct (query q (database b)).
Qed.

Lemma handle_database link req b :
  database (handle link req b).2 = database b ∨
  ∃ q, database (handle link req b).2 = (query q (database b)).2.
Proof.
  destruct req as [|body|p body|p]; simpl.
  - destruct (with_client_database link SelectAll
                (λ result, json (Todos (rows result))) b); eauto.
  - unfold post_api_todos.
    destruct (destructure body (js "text")) as [e|v]; [by left|].
    destruct (negb (truthy v)); [by left|].
    destruct v; try by left.
    case_bool_decide; [by left|].
    match goal with
    | |- context [with_client link ?q ?k b] =>
        destruct (with_client_database link q k b); eauto
    end.
  - unfold put_api_todos_id.
    destruct (destructure body (js "completed")) as [e|v]; [by left|].
    destruct v; try by left.
    destruct (parseInt p); [|by left].
    match goal with
    | |- context [with_client link ?q ?k b] =>
        destruct (with_client_database link q k b); eauto
    end.
  - unfold delete_api_todos_id.
    destruct (parseInt p); [|by left].
    match goal with
    | |- context [with_client link ?q ?k b] =>
        destruct (with_client_database link q k b); eauto
    end.
Qed.

Section Invariant.
Variable P : Database → Prop.
Hypothesis P_query : ∀ q d, P d → P (query q d).2.

Lemma handle_preserves link req b :
  P (database b) → P (database (handle link req b).2).
Proof.
  intros HP. destruct (handle_database link req b) as [->|[q ->]]; auto.
Qed.

Lemma run_preserves script b :
  P (database b) → P (database (run script b)).
Proof.
  revert b. induction script as [|[link req] script IH]; intros b HP; [done|].
  apply IH. by apply handle_preserves.
Qed.
End Invariant.

Lemma wf_boot : wf (database boot).
Proof.
  split; simpl; [unfold int4_max; lia|].
  intros i. rewrite lookup_empty. by intros [? ?].
Qed.

Lemma run_wf script b : wf (database b) → wf (database (run script b)).
Proof. apply run_preserves. intros q d. apply query_wf. Qed.

Lemma run_seq_mono script b :
  todos_id_seq (database b) ≤ todos_id_seq (database (run script b)).
Proof.
  apply (run_preserves (λ d, todos_id_seq (database b) ≤ todos_id_seq d));
    [|lia].
  intros q d Hd. pose proof (query_seq_mono q d). lia.
Qed.

Lemma run_absent script b i :
  wf (database b) → i ≤ todos_id_seq (database b) →
  todos (database b) !! i = None →
  todos (database (run script b)) !! i = None.
Proof.
  intros Hwf Hi Hnone.
  apply (run_preserves
           (λ d, wf d ∧ i ≤ todos_id_seq d ∧ todos d !! i = None)); [|done].
  intros q d (Hw & Hle & Hn). split; [by apply query_wf|]. split.
  - pose proof (query_seq_mono q d). lia.
  - by apply query_absent.
Qed.

(** ** Evaluating the statements *)

Lemma varchar_fits n s : (length s ≤ n)%nat → varchar n s = Some s.
Proof.
  intros Hlen. unfold varchar.
  rewrite drop_ge, take_ge by done. by rewrite bool_decide_eq_true_2.
Qed.

Lemma utf8_well_formed s : well_formed s → utf8 s = s.
Proof.
  induction 1 as [|c s Hc _ IH]; simpl; [done|]. by rewrite Hc, IH.
Qed.

Lemma query_insert t d :
  well_formed t → 0%N ∉ t → (length t ≤ 255)%nat →
  todos_id_seq d < int4_max →
  query (Insert t) d =
    (inr {| rows := [ {| id := todos_id_seq d + 1; text := t; completed := false |} ];
            rowCount := 1 |},
     {| todos := <[todos_id_seq d + 1 := (t, false)]> (todos d);
        todos_id_seq := todos_id_seq d + 1 |}).
Proof.
  intros Hwf Hnul Hlen Hseq. unfold query. rewrite utf8_well_formed by done.
  cbv zeta. rewrite bool_decide_eq_false_2 by done.
  rewrite varchar_fits by done.
  rewrite bool_decide_eq_false_2 by lia. done.
Qed.

Lemma query_update_hit c i t c0 d :
  is_int4 i = true → todos d !! i = Some (t, c0) →
  query (Update c i) d =
    (inr {| rows := [ {| id := i; text := t; completed := c |} ]; rowCount := 1 |},
     {| todos := <[i := (t, c)]> (todos d); todos_id_seq := todos_id_seq d |}).
Proof. intros Hi Hrow. unfold query. by rewrite Hi, Hrow. Qed.

Lemma query_update_miss c i d :
  is_int4 i = true → todos d !! i = None →
  query (Update c i) d = (inr {| rows := []; rowCount := 0 |}, d).
Proof. intros Hi Hrow. unfold query. by rewrite Hi, Hrow. Qed.

Lemma query_delete_hit i d :
  is_int4 i = true → is_Some (todos d !! i) →
  query (Delete i) d =
    (inr {| rows := []; rowCount := 1 |},
     {| todos := delete i (todos d); todos_id_seq := todos_id_seq d |}).
Proof. intros Hi [r Hrow]. unfold query. by rewrite Hi, Hrow. Qed.

Lemma query_delete_miss i d :
  is_int4 i = true → todos d !! i = None →
  query (Delete i) d = (inr {| rows := []; rowCount := 0 |}, d).
Proof. intros Hi Hrow. unfold query. by rewrite Hi, Hrow. Qed.

Lemma query_out_of_range_update c i d :
  is_int4 i = false →
  query (Update c i) d = (inl numeric_value_out_of_range, d).
Proof. intros Hi. unfold query. by rewrite Hi. Qed.

Lemma query_out_of_range_delete i d :
  is_int4 i = false →
  query (Delete i) d = (inl numeric_value_out_of_range, d).
Proof. intros Hi. unfold query. by rewrite Hi. Qed.

(** ** Evaluating the routes *)

Lemma with_client_up q k b r d :
  query q (database b) = (r, d) →
  with_client Up q k b =
    (Sent match r with inr result => k result | inl _ => internal_error end,
     {| database := d; journal := journal b ++ [Connect; Query q; Release] |}).
Proof. intros Hq. unfold with_client. by rewrite Hq. Qed.

Lemma with_client_down q k b :
  with_client Down q k b = (Sent internal_error, record [Connect] b).
Proof. done. Qed.

Lemma post_valid link body t b :
  destructure body (js "text") = inr (VStr t) → trim t ≠ [] →
  post_api_todos link body b =
    with_client link (Insert t)
      (λ result, status_json 201 (Row0 (head (rows result)))) b.
Proof.
  intros Hd Ht. unfold post_api_todos. rewrite Hd.
  assert (t ≠ []) by (intros ->; by apply Ht).
  simpl. rewrite !bool_decide_eq_false_2 by done. done.
Qed.

Lemma put_valid link p i body c b :
  destructure body (js "completed") = inr (VBool c) → parseInt p = Some i →
  put_api_todos_id link p body b =
    with_client link (Update c i)
      (λ result,
         if bool_decide (length (rows result) = 0%nat) then not_found
         else json (Row0 (head (rows result)))) b.
Proof. intros Hd Hp. unfold put_api_todos_id. by rewrite Hd, Hp. Qed.

Lemma delete_valid link p i b :
  parseInt p = Some i →
  delete_api_todos_id link p b =
    with_client link (Delete i)
      (λ result,
         if bool_decide (rowCount result = 0%nat) then not_found
         else deleted) b.
Proof. intros Hp. unfold delete_api_todos_id. by rewrite Hp. Qed.

(** ** Create *)

(** C1, as amended: a create request whose [text] is a well-formed string
    [t] that is not blank, has at most 255 characters and no NUL character,
    sent while the store is reachable and the sequence is not exhausted, is
    answered 201 with a Todo whose text is [t] itself (untrimmed), whose
    [completed] is false, and whose [id] is carried by no row of the table
    now nor by any row of an earlier state [past] of the store (so also by
    none deleted since); the row is added to the table. *)
Theorem create_returns_fresh_todo body t past script b :
  destructure body (js "text") = inr (VStr t) →
  trim t ≠ [] → well_formed t → (length t ≤ 255)%nat → 0%N ∉ t →
  wf (database past) → b = run script past →
  todos_id_seq (database b) < int4_max →
  ∃ todo b',
    post_api_todos Up body b = (Sent (status_json 201 (Row0 (Some todo))), b') ∧
    text todo = t ∧ completed todo = false ∧
    todos (database b) !! id todo = None ∧
    todos (database past) !! id todo = None ∧
    todos (database b') = <[id todo := (t, false)]> (todos (database b)).
Proof.
  intros Hd Ht Hwft Hlen Hnul Hpast -> Hseq.
  set (b := run script past) in *.
  assert (Hwf : wf (database b)) by by apply run_wf.
  exists {| id := todos_id_seq (database b) + 1; text := t; completed := false |}.
  eexists. split; [|repeat split].
  - rewrite (post_valid Up body t b Hd Ht).
    by rewrite (with_client_up _ _ _ _ _ (query_insert t _ Hwft Hnul Hlen Hseq)).
  - by apply wf_next_fresh.
  - simpl. apply eq_None_not_Some. intros Hs.
    destruct Hpast as [_ Hkeys]. specialize (Hkeys _ Hs).
    pose proof (run_seq_mono script past). fold b in H. lia.
  - done.
Qed.

Lemma create_returns_fresh_todo_witness :
  ∃ todo b',
    post_api_todos Up (VObj [(js "text", VStr (js " buy milk "))])
      (run [(Up, POST_todos (VObj [(js "text", VStr (js "x"))]));
            (Up, DELETE_todos_id (js "1"))] boot)
      = (Sent (status_json 201 (Row0 (Some todo))), b') ∧
    text todo = js " buy milk " ∧ id todo = 2.
Proof.
  destruct (create_returns_fresh_todo
              (VObj [(js "text", VStr (js " buy milk "))]) (js " buy milk ")
              boot
              [(Up, POST_todos (VObj [(js "text", VStr (js "x"))]));
               (Up, DELETE_todos_id (js "1"))]
              (run [(Up, POST_todos (VObj [(js "text", VStr (js "x"))]));
                    (Up, DELETE_todos_id (js "1"))] boot))
    as (todo & b' & Hpost & Htext & _ & _ & _ & _).
  - reflexivity.
  - vm_compute. discriminate.
  - repeat constructor.
  - vm_compute. lia.
  - apply (bool_decide_unpack _). vm_compute. reflexivity.
  - apply wf_boot.
  - reflexivity.
  - vm_compute. reflexivity.
  - exists todo, b'. split; [exact Hpost|]. split; [exact Htext|].
    vm_compute in Hpost. by injection Hpost as <- _.
Defined.

(** C1 as stated fails: a text of 256 letters is not blank, yet the column
    is [VARCHAR(255)], the INSERT raises, and the answer is 500. *)
Lemma create_long_text_refused :
  trim (replicate 256 97%N) ≠ [] ∧
  (post_api_todos Up (VObj [(js "text", VStr (replicate 256 97%N))]) boot).1
    = Sent internal_error ∧
  status internal_error = 500 ∧
  todos (database
    (post_api_todos Up (VObj [(js "text", VStr (replicate 256 97%N))]) boot).2)
    = ∅.
Proof.
  split; [vm_compute; discriminate|].
  split; [vm_compute; reflexivity|].
  split; [reflexivity|]. vm_compute. reflexivity.
Qed.

(** A text whose characters beyond the 255th are all spaces is stored cut
    at the limit: the answer is 201, with a text that is not the one sent. *)
Lemma create_trailing_spaces_cut :
  let t := 97%N :: replicate 255 32%N in
  ∃ todo b',
    post_api_todos Up (VObj [(js "text", VStr t)]) boot
      = (Sent (status_json 201 (Row0 (Some todo))), b') ∧
    text todo = 97%N :: replicate 254 32%N ∧ text todo ≠ t.
Proof.
  eexists _, _. split; [vm_compute; reflexivity|].
  split; [vm_compute; reflexivity|]. vm_compute. discriminate.
Qed.

(** ** Update completion *)

(** What the update route can do to the database. *)
Lemma put_effect link p body b :
  database (put_api_todos_id link p body b).2 = database b ∨
  ∃ i t c0 c,
    parseInt p = Some i ∧ todos (database b) !! i = Some (t, c0) ∧
    database (put_api_todos_id link p body b).2 =
      {| todos := <[i := (t, c)]> (todos (database b));
         todos_id_seq := todos_id_seq (database b) |}.
Proof.
  unfold put_api_todos_id.
  destruct (destructure body (js "completed")) as [e|v]; [by left|].
  destruct v as [| |c| | | |]; try by left.
  destruct (parseInt p) as [i|] eqn:Hp; [|by left].
  destruct link; [|by left].
  unfold with_client, query.
  destruct (negb (is_int4 i)); [by left|].
  destruct (todos (database b) !! i) as [[t c0]|] eqn:Hrow; [|by left].
  right. by exists i, t, c0, c.
Qed.

Lemma put_hit p i body c t c0 b :
  destructure body (js "completed") = inr (VBool c) → parseInt p = Some i →
  is_int4 i = true → todos (database b) !! i = Some (t, c0) →
  put_api_todos_id Up p body b =
    (Sent (json (Row0 (Some {| id := i; text := t; completed := c |}))),
     {| database := {| todos := <[i := (t, c)]> (todos (database b));
                       todos_id_seq := todos_id_seq (database b) |};
        journal := journal b ++ [Connect; Query (Update c i); Release] |}).
Proof.
  intros Hd Hp Hi Hrow. rewrite (put_valid Up p i body c b Hd Hp).
  by rewrite (with_client_up _ _ _ _ _ (query_update_hit c i t c0 _ Hi Hrow)).
Qed.

(** C6, as amended: on a request whose body is there to be destructured
    (any value but [undefined] and [null]: the object the JSON parser
    delivered), the update route answers 400 when [completed] is not a
    boolean and 400 when the identifier has no integer prefix, in both
    cases without touching the pool or the table; otherwise, when the store
    is reachable and the parsed identifier lies within the range of the [id]
    column, it answers 404 with an error payload if no row has that [id] and
    200 with the updated Todo if one has.  (Outside that range the statement
    raises and the answer is 500, as it is when the store is unreachable.) *)
Theorem update_contract link p body completed b :
  destructure body (js "completed") = inr completed →
  match completed, parseInt p with
  | VBool c, Some i =>
      put_api_todos_id Down p body b = (Sent internal_error, record [Connect] b) ∧
      if is_int4 i then
        match todos (database b) !! i with
        | Some (t, c0) =>
            put_api_todos_id Up p body b =
              (Sent (json (Row0 (Some {| id := i; text := t; completed := c |}))),
               {| database := {| todos := <[i := (t, c)]> (todos (database b));
                                 todos_id_seq := todos_id_seq (database b) |};
                  journal := journal b ++ [Connect; Query (Update c i); Release] |})
        | None =>
            put_api_todos_id Up p body b =
              (Sent not_found, record [Connect; Query (Update c i); Release] b)
        end
      else
        put_api_todos_id Up p body b =
          (Sent internal_error, record [Connect; Query (Update c i); Release] b)
  | VBool _, None => put_api_todos_id link p body b = (Sent invalid_id, b)
  | _, _ => put_api_todos_id link p body b = (Sent completed_not_boolean, b)
  end ∧
  status invalid_id = 400 ∧ status completed_not_boolean = 400 ∧
  status not_found = 404 ∧ (∃ msg, payload not_found = ErrorBody msg).
Proof.
  intros Hd. split; [|repeat split; by eexists].
  destruct completed as [| |c| | | |];
    try (unfold put_api_todos_id; by rewrite Hd).
  destruct (parseInt p) as [i|] eqn:Hp;
    [|unfold put_api_todos_id; by rewrite Hd, Hp].
  rewrite !(put_valid _ p i body c b Hd Hp). split; [done|].
  destruct (is_int4 i) eqn:Hi.
  - destruct (todos (database b) !! i) as [[t c0]|] eqn:Hrow.
    + rewrite <- (put_valid Up p i body c b Hd Hp). by apply (put_hit _ _ _ _ _ c0).
    + by rewrite (with_client_up _ _ _ _ _ (query_update_miss c i _ Hi Hrow)).
  - by rewrite (with_client_up _ _ _ _ _ (query_out_of_range_update c i _ Hi)).
Qed.

Lemma update_contract_witness :
  put_api_todos_id Up (js "999") (completed_body true) boot
    = (Sent not_found,
       record [Connect; Query (Update true 999); Release] boot).
Proof.
  exact (proj2 (proj1
    (update_contract Up (js "999") (completed_body true) (VBool true) boot
       eq_refl))).
Defined.

(** Without a body, [const { completed } = req.body] raises a [TypeError]
    before either validation: no 400 is sent for a [completed] that is
    missing this way. *)
Lemma update_without_body_raises :
  destructure VUndefined (js "completed") = inl TypeError ∧
  put_api_todos_id Up (js "1") VUndefined boot = (Raised TypeError, boot) ∧
  (∀ r, (put_api_todos_id Up (js "1") VUndefined boot).1 ≠ Sent r).
Proof. split; [done|]. split; [done|]. intros r Hr. discriminate Hr. Qed.

(** C6 as stated fails: an identifier that parses as an integer beyond the
    32-bit [id] column matches no row, yet the answer is 500, not 404. *)
Lemma update_id_out_of_range :
  destructure (completed_body true) (js "completed") = inr (VBool true) ∧
  parseInt (js "2147483648") = Some 2147483648 ∧
  todos (database boot) !! 2147483648 = None ∧
  (put_api_todos_id Up (js "2147483648") (completed_body true) boot).1
    = Sent internal_error ∧
  status internal_error = 500.
Proof. repeat split; vm_compute; reflexivity. Qed.

(** C7: an update request, whatever it is and however it ends, leaves every
    row's [id] and [text] as they were, creates and removes no row, leaves
    the sequence alone, and changes [completed] at most on the row whose
    [id] the path parses to. *)
Theorem update_frame link p body b k t c :
  todos (database b) !! k = Some (t, c) →
  dom (todos (database (put_api_todos_id link p body b).2))
    = dom (todos (database b)) ∧
  todos_id_seq (database (put_api_todos_id link p body b).2)
    = todos_id_seq (database b) ∧
  ∃ c', todos (database (put_api_todos_id link p body b).2) !! k = Some (t, c') ∧
        (parseInt p = Some k ∨ c' = c).
Proof.
  intros Hk.
  destruct (put_effect link p body b) as [->|(i & t0 & c0 & c1 & Hp & Hi & ->)].
  - repeat split. exists c. auto.
  - simpl. split; [|split; [done|]].
    + rewrite dom_insert_L. apply subseteq_union_1_L, singleton_subseteq_l.
      by eapply elem_of_dom_2.
    + destruct (decide (i = k)) as [->|Hne].
      * rewrite lookup_insert_eq. rewrite Hk in Hi. injection Hi as <- <-.
        exists c1. auto.
      * rewrite lookup_insert_ne by done. exists c. auto.
Qed.

Lemma update_frame_witness :
  ∃ c', todos (database
          (put_api_todos_id Up (js "1") (completed_body true)
             (run [(Up, POST_todos (VObj [(js "text", VStr (js "a"))]));
                   (Up, POST_todos (VObj [(js "text", VStr (js "b"))]))] boot)).2)
          !! 2 = Some (js "b", c') ∧
        (parseInt (js "1") = Some 2 ∨ c' = false).
Proof.
  refine (proj2 (proj2
    (update_frame Up (js "1") (completed_body true)
       (run [(Up, POST_todos (VObj [(js "text", VStr (js "a"))]));
             (Up, POST_todos (VObj [(js "text", VStr (js "b"))]))] boot)
       2 (js "b") false _))).
  vm_compute. reflexivity.
Defined.

(** C3: for a row that exists, the client's toggle sent on the current
    value and then again on the value it produced is answered 200 both
    times, the first with [completed] negated and the second with the
    original value, [id] and [text] being the same in both answers; the
    database ends exactly as it began. *)
Theorem toggle_twice b i t c :
  wf (database b) → todos (database b) !! i = Some (t, c) →
  ∃ b1 b2,
    handle Up (App.toggleComplete i c) b
      = (Sent (json (Row0 (Some {| id := i; text := t; completed := negb c |}))), b1) ∧
    todos (database b1) !! i = Some (t, negb c) ∧
    handle Up (App.toggleComplete i (negb c)) b1
      = (Sent (json (Row0 (Some {| id := i; text := t; completed := c |}))), b2) ∧
    database b2 = database b.
Proof.
  intros Hwf Hrow.
  assert (Hi : is_int4 i = true) by by eapply wf_int4.
  pose proof (parseInt_Number_toString i) as Hp.
  eexists _, _. unfold App.toggleComplete, handle.
  split; [by apply (put_hit _ i _ (negb c) t c)|].
  split; [simpl; by rewrite lookup_insert_eq|].
  rewrite negb_involutive. split.
  - apply (put_hit _ i _ c t (negb c)); try done.
    simpl. by rewrite lookup_insert_eq.
  - simpl. rewrite insert_insert_eq, insert_id by done.
    by destruct (database b).
Qed.

Lemma toggle_twice_witness :
  ∃ b1 b2,
    handle Up (App.toggleComplete 1 false)
      (run [(Up, POST_todos (VObj [(js "text", VStr (js "buy milk"))]))] boot)
      = (Sent (json (Row0 (Some {| id := 1; text := js "buy milk";
                                   completed := true |}))), b1) ∧
    handle Up (App.toggleComplete 1 true) b1
      = (Sent (json (Row0 (Some {| id := 1; text := js "buy milk";
                                   completed := false |}))), b2) ∧
    database b2 =
    database (run [(Up, POST_todos (VObj [(js "text", VStr (js "buy milk"))]))] boot).
Proof.
  destruct (toggle_twice
              (run [(Up, POST_todos (VObj [(js "text", VStr (js "buy milk"))]))] boot)
              1 (js "buy milk") false)
    as (b1 & b2 & H1 & _ & H2 & H3).
  - apply run_wf, wf_boot.
  - vm_compute. reflexivity.
  - exists b1, b2. auto.
Defined.

(** ** Delete *)

(** C4, as amended: with the store reachable and an identifier within the
    range of the [id] column, deleting an [id] that no row has is answered
    404; deleting an existing one is answered 200 with the acknowledgement
    and removes the row for good: after any further requests the row is
    still absent, a list that is answered does not contain the [id], and an
    update (with a boolean [completed]) or a delete sent for that [id] while
    the store is reachable is answered 404. *)
Theorem delete_permanent p p' i b script c :
  wf (database b) → parseInt p = Some i → parseInt p' = Some i →
  is_int4 i = true →
  match todos (database b) !! i with
  | None =>
      delete_api_todos_id Up p b
        = (Sent not_found, record [Connect; Query (Delete i); Release] b)
  | Some _ =>
      ∃ b1,
        delete_api_todos_id Up p b = (Sent deleted, b1) ∧
        todos (database b1) = delete i (todos (database b)) ∧
        todos (database (run script b1)) !! i = None ∧
        (∃ l, (get_api_todos Up (run script b1)).1 = Sent (json (Todos l)) ∧
              i ∉ id <$> l) ∧
        (put_api_todos_id Up p' (completed_body c) (run script b1)).1
          = Sent not_found ∧
        (delete_api_todos_id Up p' (run script b1)).1 = Sent not_found
  end ∧
  status deleted = 200 ∧ (∃ msg, payload deleted = MessageBody msg) ∧
  status not_found = 404.
Proof.
  intros Hwf Hp Hp' Hi. split; [|repeat split; by eexists].
  rewrite (delete_valid Up p i b Hp).
  destruct (todos (database b) !! i) as [r|] eqn:Hrow.
  2:{ by rewrite (with_client_up _ _ _ _ _ (query_delete_miss i _ Hi Hrow)). }
  assert (Hsome : is_Some (todos (database b) !! i)) by by rewrite Hrow.
  rewrite (with_client_up _ _ _ _ _ (query_delete_hit i _ Hi Hsome)).
  eexists. split; [reflexivity|]. split; [reflexivity|].
  match goal with |- context [run script ?b1] => set (b2 := run script b1) end.
  assert (Hgone : todos (database b2) !! i = None).
  { apply run_absent; simpl.
    - apply (effect_wf (database b)); [by apply effect_delete|done].
    - destruct Hwf as [_ Hkeys]. specialize (Hkeys i Hsome). lia.
    - apply lookup_delete_eq. }
  split; [done|]. split; [|split].
  - exists (select_all (database b2)). split; [done|].
    intros (todo & -> & Hin)%list_elem_of_fmap.
    apply elem_of_select_all in Hin. by rewrite Hgone in Hin.
  - rewrite (put_valid Up p' i (completed_body c) c b2 eq_refl Hp').
    by rewrite (with_client_up _ _ _ _ _ (query_update_miss c i _ Hi Hgone)).
  - rewrite (delete_valid Up p' i b2 Hp').
    by rewrite (with_client_up _ _ _ _ _ (query_delete_miss i _ Hi Hgone)).
Qed.

Lemma delete_permanent_witness :
  ∃ b1,
    delete_api_todos_id Up (js "1")
      (run [(Up, POST_todos (VObj [(js "text", VStr (js "buy milk"))]))] boot)
      = (Sent deleted, b1) ∧
    (delete_api_todos_id Up (js "1.0")
       (run [(Up, POST_todos (VObj [(js "text", VStr (js "eggs"))]))] b1)).1
      = Sent not_found.
Proof.
  pose proof (delete_permanent (js "1") (js "1.0") 1
                (run [(Up, POST_todos (VObj [(js "text", VStr (js "buy milk"))]))] boot)
                [(Up, POST_todos (VObj [(js "text", VStr (js "eggs"))]))] true
                (run_wf _ _ wf_boot) eq_refl eq_refl eq_refl) as [H _].
  destruct H as (b1 & H1 & _ & _ & _ & _ & H2).
  exists b1. split; [exact H1|exact H2].
Defined.

(** C4 as stated fails: no row has the [id] 2147483648, yet deleting it is
    answered 500, because the value does not fit the column type and the
    statement raises. *)
Lemma delete_id_out_of_range :
  parseInt (js "2147483648") = Some 2147483648 ∧
  todos (database boot) !! 2147483648 = None ∧
  (delete_api_todos_id Up (js "2147483648") boot).1 = Sent internal_error ∧
  status internal_error = 500.
Proof. repeat split; vm_compute; reflexivity. Qed.

(** ** List *)

Lemma get_up b :
  get_api_todos Up b =
    (Sent (json (Todos (select_all (database b)))),
     record [Connect; Query SelectAll; Release] b).
Proof. done. Qed.

Lemma get_down b :
  get_api_todos Down b = (Sent internal_error, record [Connect] b).
Proof. done. Qed.

Lemma post_size link body b :
  wf (database b) →
  size (todos (database (post_api_todos link body b).2))
    = (size (todos (database b))
       + if is_created (post_api_todos link body b).1 then 1 else 0)%nat.
Proof.
  intros Hwf. unfold post_api_todos.
  destruct (destructure body (js "text")) as [e|v]; [simpl; lia|].
  destruct (negb (truthy v)); [simpl; lia|].
  destruct v as [| | | |t| |]; try (simpl; lia).
  case_bool_decide; [simpl; lia|].
  destruct link; [|simpl; lia].
  unfold with_client, query. cbv zeta.
  case_bool_decide; [simpl; lia|].
  destruct (varchar 255 (utf8 t)) as [t'|]; [|simpl; lia].
  case_bool_decide; [simpl; lia|]. simpl.
  rewrite map_size_insert_None by by apply wf_next_fresh. lia.
Qed.

Lemma put_size link p body b :
  size (todos (database (put_api_todos_id link p body b).2))
    = size (todos (database b)) ∧
  is_created (put_api_todos_id link p body b).1 = false.
Proof.
  split.
  - destruct (put_effect link p body b) as [->|(i & t & c0 & c & _ & Hrow & ->)];
      [done|].
    simpl. apply map_size_insert_Some. by rewrite Hrow.
  - unfold put_api_todos_id.
    destruct (destructure body (js "completed")) as [e|v]; [done|].
    destruct v as [| |c| | | |]; try done.
    destruct (parseInt p) as [i|]; [|done].
    destruct link; [|done].
    unfold with_client, query.
    destruct (negb (is_int4 i)); [done|].
    by destruct (todos (database b) !! i) as [[t c0]|].
Qed.

Lemma get_size link b :
  database (get_api_todos link b).2 = database b ∧
  is_created (get_api_todos link b).1 = false.
Proof. by destruct link. Qed.

Lemma handle_size link req b :
  wf (database b) → is_delete req = false →
  size (todos (database (handle link req b).2))
    = (size (todos (database b))
       + if is_created (handle link req b).1 then 1 else 0)%nat.
Proof.
  intros Hwf Hreq. destruct req as [|body|p body|p]; simpl; [| | |done].
  - destruct (get_size link b) as [-> ->]. lia.
  - by apply post_size.
  - destruct (put_size link p body b) as [-> ->]. lia.
Qed.

Lemma run_size script b :
  wf (database b) → no_deletes script →
  size (todos (database (run script b)))
    = (size (todos (database b)) + created script b)%nat.
Proof.
  intros Hwf Hnd. revert b Hwf.
  induction Hnd as [|[link req] script Hreq _ IH]; intros b Hwf; simpl;
    [lia|].
  unfold run in *. simpl. rewrite IH.
  - rewrite handle_size by done. lia.
  - apply handle_preserves; [|done]. intros q d. apply query_wf.
Qed.

(** C5, as amended: whenever the store is reachable the list route answers
    200 with all the rows of the table, whatever its state, in strictly
    ascending order of [id]; the payload is a sequence, never null.  On the
    freshly created table the sequence is empty, and after a script without
    deletes run from there it has exactly as many items as the script had
    successful creates. *)
Theorem list_ascending script b :
  no_deletes script →
  (∃ l,
     get_api_todos Up b
       = (Sent (json (Todos l)), record [Connect; Query SelectAll; Release] b) ∧
     status (json (Todos l)) = 200 ∧
     StronglySorted id_lt l ∧
     length l = size (todos (database b)) ∧
     ∀ todo, todo ∈ l ↔
             todos (database b) !! id todo = Some (text todo, completed todo)) ∧
  (∃ l,
     (get_api_todos Up (run script boot)).1 = Sent (json (Todos l)) ∧
     length l = created script boot) ∧
  (get_api_todos Up boot).1 = Sent (json (Todos [])).
Proof.
  intros Hnd. split; [|split].
  - exists (select_all (database b)).
    split; [apply get_up|]. split; [done|]. split; [|split].
    + apply select_all_sorted.
    + apply select_all_length.
    + intros todo. apply elem_of_select_all.
  - exists (select_all (database (run script boot))). split; [done|].
    rewrite select_all_length, run_size by (done || apply wf_boot).
    simpl. by rewrite map_size_empty.
  - rewrite get_up. simpl. by rewrite select_all_empty.
Qed.

Lemma list_ascending_witness :
  ∃ l,
    (get_api_todos Up
       (run [(Up, POST_todos (VObj [(js "text", VStr (js "a"))]));
             (Up, POST_todos (VObj [(js "text", VStr (js ""))]));
             (Down, POST_todos (VObj [(js "text", VStr (js "b"))]));
             (Up, POST_todos (VObj [(js "text", VStr (js "c"))]));
             (Up, PUT_todos_id (js "2") (completed_body true))] boot)).1
      = Sent (json (Todos l)) ∧
    length l = 2%nat.
Proof.
  destruct (list_ascending
              [(Up, POST_todos (VObj [(js "text", VStr (js "a"))]));
               (Up, POST_todos (VObj [(js "text", VStr (js ""))]));
               (Down, POST_todos (VObj [(js "text", VStr (js "b"))]));
               (Up, POST_todos (VObj [(js "text", VStr (js "c"))]));
               (Up, PUT_todos_id (js "2") (completed_body true))]
              boot ltac:(repeat constructor))
    as (_ & (l & Hget & Hlen) & _).
  exists l. split; [exact Hget|].
  rewrite Hlen. vm_compute. reflexivity.
Defined.

(** C5 as stated fails: when [pool.connect()] rejects, the list route
    answers 500 with the error payload, not 200 with a sequence. *)
Lemma list_store_unreachable :
  (get_api_todos Down boot).1 = Sent internal_error ∧
  status internal_error = 500 ∧
  (∀ l, payload internal_error ≠ Todos l).
Proof. split; [reflexivity|]. split; [reflexivity|]. intros l. discriminate. Qed.

(** The scenario of the specification: create, complete, delete, list. *)
Example scenario_buy_milk :
  let b0 := boot in
  let r1 := post_api_todos Up (VObj [(js "text", VStr (js "buy milk"))]) b0 in
  let r2 := put_api_todos_id Up (js "1") (completed_body true) r1.2 in
  let r3 := delete_api_todos_id Up (js "1") r2.2 in
  let r4 := get_api_todos Up r3.2 in
  r1.1 = Sent (status_json 201
           (Row0 (Some {| id := 1; text := js "buy milk"; completed := false |}))) ∧
  r2.1 = Sent (json
           (Row0 (Some {| id := 1; text := js "buy milk"; completed := true |}))) ∧
  r3.1 = Sent deleted ∧
  r4.1 = Sent (json (Todos [])).
Proof. vm_compute. repeat split. Qed.

(** ** Path identifiers *)

Lemma delete_parsed_status link p i b :
  parseInt p = Some i →
  ∃ r, (delete_api_todos_id link p b).1 = Sent r ∧ status r ≠ 400.
Proof.
  intros Hp. rewrite (delete_valid link p i b Hp).
  destruct link; [|by eexists].
  unfold with_client, query.
  destruct (negb (is_int4 i)); [by eexists|].
  destruct (todos (database b) !! i); by eexists.
Qed.

Lemma put_parsed_status link p i c b :
  parseInt p = Some i →
  ∃ r, (put_api_todos_id link p (completed_body c) b).1 = Sent r ∧
       status r ≠ 400.
Proof.
  intros Hp. rewrite (put_valid link p i (completed_body c) c b eq_refl Hp).
  destruct link; [|by eexists].
  unfold with_client, query.
  destruct (negb (is_int4 i)); [by eexists|].
  destruct (todos (database b) !! i) as [[t c0]|]; by eexists.
Qed.

Lemma delete_invalid_id_iff link p b :
  (delete_api_todos_id link p b).1 = Sent invalid_id ↔ parseInt p = None.
Proof.
  split.
  - intros Hr. destruct (parseInt p) as [i|] eqn:Hp; [|done].
    destruct (delete_parsed_status link p i b Hp) as (r & Hs & Hne).
    rewrite Hr in Hs. injection Hs as <-. done.
  - intros Hp. unfold delete_api_todos_id. by rewrite Hp.
Qed.

Lemma put_invalid_id_iff link p c b :
  (put_api_todos_id link p (completed_body c) b).1 = Sent invalid_id
  ↔ parseInt p = None.
Proof.
  split.
  - intros Hr. destruct (parseInt p) as [i|] eqn:Hp; [|done].
    destruct (put_parsed_status link p i c b Hp) as (r & Hs & Hne).
    rewrite Hr in Hs. injection Hs as <-. done.
  - intros Hp. unfold put_api_todos_id. simpl. by rewrite Hp.
Qed.

(** C9: a path identifier that begins with decimal digits is read as the
    number those digits denote, whatever follows them: the delete and the
    update route treat it exactly as they treat the digits alone and do not
    answer 400.  The 400 for an invalid identifier is sent exactly when
    [parseInt] yields [NaN]. *)
Theorem id_prefix_accepted link ds rest c b :
  ds ≠ [] → digits ds → stops rest →
  parseInt (ds ++ rest) = Some (decimal ds) ∧
  delete_api_todos_id link (ds ++ rest) b = delete_api_todos_id link ds b ∧
  put_api_todos_id link (ds ++ rest) (completed_body c) b
    = put_api_todos_id link ds (completed_body c) b ∧
  (∃ r, (delete_api_todos_id link (ds ++ rest) b).1 = Sent r ∧ status r ≠ 400) ∧
  (∃ r, (put_api_todos_id link (ds ++ rest) (completed_body c) b).1 = Sent r ∧
        status r ≠ 400) ∧
  (∀ p, (delete_api_todos_id link p b).1 = Sent invalid_id
        ↔ isNaN (parseInt p) = true) ∧
  (∀ p, (put_api_todos_id link p (completed_body c) b).1 = Sent invalid_id
        ↔ isNaN (parseInt p) = true).
Proof.
  intros Hne Hds Hrest.
  pose proof (parseInt_prefix ds rest Hne Hds Hrest) as Hp.
  assert (Hp0 : parseInt ds = Some (decimal ds)).
  { rewrite <- (app_nil_r ds) at 1. by apply parseInt_prefix. }
  split; [done|]. split; [|split; [|split; [|split; [|split]]]].
  - by rewrite (delete_valid link _ _ b Hp), (delete_valid link _ _ b Hp0).
  - by rewrite (put_valid link _ _ (completed_body c) c b eq_refl Hp),
               (put_valid link _ _ (completed_body c) c b eq_refl Hp0).
  - by eapply delete_parsed_status.
  - by eapply put_parsed_status.
  - intros p. rewrite delete_invalid_id_iff. by destruct (parseInt p).
  - intros p. rewrite put_invalid_id_iff. by destruct (parseInt p).
Qed.

Lemma id_prefix_accepted_witness :
  parseInt (js "7abc") = Some 7 ∧
  delete_api_todos_id Up (js "7abc") boot = delete_api_todos_id Up (js "7") boot.
Proof.
  destruct (id_prefix_accepted Up (js "7") (js "abc") true boot)
    as (Hp & Hdel & _).
  - discriminate.
  - repeat constructor.
  - reflexivity.
  - split; [exact Hp|exact Hdel].
Defined.

(** The identifiers the claim names, and some that have no integer prefix. *)
Example parseInt_examples :
  parseInt (js "1.9") = Some 1 ∧ parseInt (js "7abc") = Some 7 ∧
  parseInt (js "1 ") = Some 1 ∧ parseInt (js " 42") = Some 42 ∧
  parseInt (js "-3x") = Some (-3) ∧
  parseInt (js "abc") = None ∧ parseInt (js ".5") = None ∧
  parseInt (js "-") = None.
Proof. repeat split. Qed.

(** ** The client's list fetch *)

Lemma axios_get_rejects r :
  App.axios_get r = None ↔
  r = App.NoAnswer ∨ ∃ status data,
    r = App.Answered status data ∧ ¬ (200 ≤ status < 300).
Proof.
  destruct r as [status data|]; simpl; [|naive_solver].
  destruct (Z.leb_spec 200 status), (Z.ltb_spec status 300); simpl; split;
    try done; try (intros _; right; exists status, data; split; [done|lia]).
  all: intros [|(? & ? & [= <- <-] & ?)]; [done|lia].
Qed.

(** C8: after [fetchTodos], the list is the response data when that data is
    an array, and only then (the error stays cleared); when the request
    succeeded with data that is no array, and when the request failed, the
    list is empty and an error message is set, so that the component draws
    the message, no item of the earlier list, and no placeholder. *)
Theorem fetchTodos_replaces_or_clears r st :
  match App.axios_get r with
  | Some data =>
      if isArray data
      then VArr (App.todos (App.fetchTodos r st)) = data ∧
           App.error (App.fetchTodos r st) = None
      else VArr (App.todos (App.fetchTodos r st)) ≠ data ∧
           App.todos (App.fetchTodos r st) = [] ∧
           App.shown (App.error (App.fetchTodos r st)) = true ∧
           App.items (App.render (App.fetchTodos r st)) = [] ∧
           App.empty_message (App.render (App.fetchTodos r st)) = false
  | None =>
      App.todos (App.fetchTodos r st) = [] ∧
      App.shown (App.error (App.fetchTodos r st)) = true ∧
      App.items (App.render (App.fetchTodos r st)) = [] ∧
      App.empty_message (App.render (App.fetchTodos r st)) = false
  end ∧
  App.newTodoText (App.fetchTodos r st) = App.newTodoText st.
Proof.
  unfold App.fetchTodos.
  destruct (App.axios_get r) as [data|]; [|done].
  destruct data; done.
Qed.

(** Stale items go away on a 500 and on a 200 whose body is an object. *)
Example fetchTodos_clears_stale :
  let st := {| App.todos := [VObj [(js "id", VNum 1)]];
               App.newTodoText := js "draft";
               App.error := None |} in
  App.todos (App.fetchTodos (App.Answered 500 (VObj [])) st) = [] ∧
  App.todos (App.fetchTodos (App.Answered 200 (VObj [])) st) = [] ∧
  App.todos (App.fetchTodos App.NoAnswer st) = [] ∧
  App.todos (App.fetchTodos (App.Answered 200 (VArr [VNull])) st) = [VNull].
Proof. repeat split. Qed.

Set Warnings "-clear-no-such-hyp".
(** ** How the routes end *)

Lemma query_error_unchanged q d e d' : query q d = (inl e, d') → d' = d.
Proof.
  destruct q as [|t|c i|i]; unfold query; cbv zeta.
  - done.
  - case_bool_decide; [by intros [= _ <-]|].
    destruct (varchar 255 (utf8 t)); [|by intros [= _ <-]].
    case_bool_decide; [by intros [= _ <-]|done].
  - destruct (negb (is_int4 i)); [by intros [= _ <-]|].
    by destruct (todos d !! i) as [[t c0]|].
  - destruct (negb (is_int4 i)); [by intros [= _ <-]|].
    by destruct (todos d !! i).
Qed.

Lemma with_client_ending link q k b :
  (∀ result d,
     query q (database b) = (inr result, d) →
     status (k result) ∈ [200; 201] ∨
     status (k result) = 404 ∧ d = database b) →
  ending link b (with_client link q k b).1 (with_client link q k b).2.
Proof.
  intros Hk. destruct link; [|by apply ended_refused].
  unfold with_client.
  pose proof (query_effect q (database b)) as He.
  destruct (query q (database b)) as [[e|result] d] eqn:Hq; simpl in *.
  - apply ended_served; [done|set_solver|done| |done].
    intros _. by eapply query_error_unchanged.
  - destruct (Hk result d eq_refl) as [Hst|[Hst ->]].
    + apply ended_served; [done|set_solver| | |done]; intros H.
      * rewrite !elem_of_cons, elem_of_nil in Hst. lia.
      * rewrite !elem_of_cons, elem_of_nil in H, Hst. lia.
    + apply ended_served; [done|set_solver| |done|done].
      intros H. congruence.
Qed.

Lemma handle_ending link req b :
  ending link b (handle link req b).1 (handle link req b).2.
Proof.
  destruct req as [|body|p body|p]; simpl.
  - apply with_client_ending. intros result d _. left. set_solver.
  - unfold post_api_todos.
    destruct (destructure body (js "text")) as [[]|v]; [apply ended_raised|].
    destruct (negb (truthy v)); [apply ended_rejected; set_solver|].
    destruct v; try apply ended_raised.
    case_bool_decide; [apply ended_rejected; set_solver|].
    apply with_client_ending. intros result d _. left. set_solver.
  - unfold put_api_todos_id.
    destruct (destructure body (js "completed")) as [[]|v];
      [apply ended_raised|].
    destruct v as [| |c| | | |]; try (apply ended_rejected; set_solver).
    destruct (parseInt p) as [i|]; [|apply ended_rejected; set_solver].
    apply with_client_ending. intros result d. unfold query.
    destruct (negb (is_int4 i)); [done|].
    destruct (todos (database b) !! i) as [[t c0]|]; intros [= <- <-]; simpl.
    + left. set_solver.
    + by right.
  - unfold delete_api_todos_id.
    destruct (parseInt p) as [i|]; [|apply ended_rejected; set_solver].
    apply with_client_ending. intros result d. unfold query.
    destruct (negb (is_int4 i)); [done|].
    destruct (todos (database b) !! i); intros [= <- <-]; simpl.
    + left. set_solver.
    + by right.
Qed.

Ltac ending_cases link req b :=
  let He := fresh "He" in
  pose proof (handle_ending link req b) as He;
  destruct (handle link req b) as [? ?]; simpl in *;
  inversion He; subst; clear He; simplify_eq; try done.

(** X1: a request answered 400 has had no effect at all: the pool was not
    asked for a client, and the table and its sequence are as before. *)
Theorem bad_request_no_effect link req b r :
  (handle link req b).1 = Sent r → status r = 400 →
  (handle link req b).2 = b.
Proof.
  intros Hr H400. ending_cases link req b; try done.
  all: match goal with
       | H : status _ ∈ _ |- _ => rewrite H400 in H; set_solver
       end.
Qed.

Lemma bad_request_no_effect_witness :
  (handle Up (PUT_todos_id (js "abc") (completed_body true)) boot).2 = boot.
Proof.
  apply (bad_request_no_effect Up _ boot invalid_id); reflexivity.
Defined.

(** X2: whatever the request, the state of the link and the state of the
    store, a response has one of five statuses, and a 500 is always the same
    generic error object, whichever statement failed and however. *)
Theorem responses_are_generic link req b r :
  (handle link req b).1 = Sent r →
  status r ∈ [200; 201; 400; 404; 500] ∧
  (status r = 500 → r = internal_error).
Proof.
  intros Hr. ending_cases link req b.
  - split; [|intros H500]; set_solver.
  - split; [set_solver|done].
  - split; [set_solver|done].
Qed.

Lemma responses_are_generic_witness :
  status internal_error ∈ [200; 201; 400; 404; 500] ∧
  (status internal_error = 500 → internal_error = internal_error).
Proof.
  apply (responses_are_generic Up
           (POST_todos (text_body (replicate 300 97%N))) boot internal_error).
  vm_compute. reflexivity.
Defined.

(** X3: a handler whose promise rejects has sent nothing and has done
    nothing to the pool or the table; only the create and the update route
    can end so, the list and the delete route always answer. *)
Theorem raise_is_harmless link req b e :
  (handle link req b).1 = Raised e →
  (handle link req b).2 = b ∧
  ((∃ body, req = POST_todos body) ∨ (∃ p body, req = PUT_todos_id p body)).
Proof.
  intros He. split.
  - clear -He. revert He. ending_cases link req b.
  - destruct req as [|body|p body|p]; [|by eauto|by eauto|]; simpl in He.
    + by destruct link.
    + unfold delete_api_todos_id in He. destruct (parseInt p); [|done].
      destruct link; [|done]. unfold with_client in He.
      by destruct (query _ _).
Qed.

Lemma raise_is_harmless_witness :
  (handle Up (PUT_todos_id (js "1") VNull) boot).2 = boot.
Proof.
  apply (raise_is_harmless Up (PUT_todos_id (js "1") VNull) boot TypeError).
  reflexivity.
Defined.

(** *** The pool *)

Lemma balanced_counts j :
  balanced j →
  length (filter (λ e, is_release e = true) j)
    = length (filter (λ e, is_query e = true) j) ∧
  (length (filter (λ e, is_query e = true) j)
     ≤ length (filter (λ e, is_connect e = true) j))%nat.
Proof.
  induction 1 as [|l _ [IH1 IH2]|l q _ [IH1 IH2]]; [done|..];
    rewrite !filter_app, !length_app; simpl; lia.
Qed.

Lemma handle_balanced link req b :
  balanced (journal b) → balanced (journal (handle link req b).2).
Proof.
  intros Hb.
  pose proof (handle_ending link req b) as He.
  destruct (handle link req b) as [o b']; simpl in *.
  inversion He; subst; simpl; try done.
  - by apply balanced_refused.
  - by apply balanced_served.
Qed.

(** X4: no client is left checked out.  In the journal of the pool after
    any sequence of requests, every statement stands between the checkout of
    a client and its release: there are as many releases as statements, and
    the only checkouts without a statement are refused ones. *)
Theorem clients_are_released script b :
  balanced (journal b) →
  balanced (journal (run script b)) ∧
  length (filter (λ e, is_release e = true) (journal (run script b)))
    = length (filter (λ e, is_query e = true) (journal (run script b))).
Proof.
  intros Hb.
  assert (Hrun : balanced (journal (run script b))).
  { revert b Hb. induction script as [|[link req] script IH]; intros b Hb;
      [done|].
    apply IH. by apply handle_balanced. }
  split; [done|]. by apply balanced_counts.
Qed.

Lemma clients_are_released_witness :
  balanced (journal
    (run [(Up, POST_todos (text_body (js "a")));
          (Down, GET_todos);
          (Up, DELETE_todos_id (js "x"));
          (Up, DELETE_todos_id (js "99999999999"))] boot)).
Proof.
  apply (clients_are_released
           [(Up, POST_todos (text_body (js "a")));
            (Down, GET_todos);
            (Up, DELETE_todos_id (js "x"));
            (Up, DELETE_todos_id (js "99999999999"))] boot).
  constructor.
Defined.

(** X7: every request is all or nothing.  A request that was answered with
    an error status (400, 404 or 500), or whose handler raised, has changed
    neither the table nor its sequence. *)
Theorem failure_changes_nothing link req b :
  match (handle link req b).1 with
  | Sent r =>
      status r ∈ [200; 201] ∨
      database (handle link req b).2 = database b
  | Raised _ => (handle link req b).2 = b
  end.
Proof.
  ending_cases link req b; try by right.
  match goal with
  | H : status ?r ∈ [200; 201; 404; 500], H' : status ?r ∈ [404; 500] → _ |- _ =>
      rewrite !elem_of_cons, elem_of_nil in H;
      destruct H as [H|[H|H]]; [left; set_solver..|];
      right; simpl; apply H'; rewrite !elem_of_cons, elem_of_nil; lia
  end.
Qed.

(** ** Creates, updates and deletes together *)

Lemma trimStart_nil_blank s : trimStart s = [] → blank s.
Proof.
  induction s as [|c s IH]; simpl; [constructor|].
  destruct (is_white_space c) eqn:Hc; [|done].
  intros Hs. apply List.Forall_cons; [done|by apply IH].
Qed.

Lemma trimStart_head c s' s :
  trimStart s = c :: s' → is_white_space c = false.
Proof.
  induction s as [|c0 s IH]; simpl; [done|].
  destruct (is_white_space c0) eqn:Hc; [done|]. by intros [= <- _].
Qed.

Lemma blank_rev s : blank (rev s) → blank s.
Proof.
  unfold blank. rewrite !Forall_forall. intros H c Hc.
  apply H, list_elem_of_In, in_rev. rewrite rev_involutive.
  by apply list_elem_of_In.
Qed.

Lemma trim_nil_blank s : trim s = [] → blank s.
Proof.
  unfold trim, trimEnd. intros Hs.
  assert (Hb : blank (trimStart s)).
  { apply blank_rev, trimStart_nil_blank.
    apply (f_equal (@rev N)) in Hs. by rewrite rev_involutive in Hs. }
  destruct (trimStart s) as [|c s'] eqn:E; [by apply trimStart_nil_blank|].
  apply trimStart_head in E. inversion Hb; congruence.
Qed.

(** What the create route can do to the database, and what it answers
    when it does. *)
Lemma post_effect link body b :
  (post_api_todos link body b).2 = b ∧
    is_created (post_api_todos link body b).1 = false
  ∨ is_created (post_api_todos link body b).1 = false ∧
    database (post_api_todos link body b).2 = database b
  ∨ ∃ t,
      todos_id_seq (database b) < int4_max ∧
      (post_api_todos link body b).1 =
        Sent (status_json 201
                (Row0 (Some {| id := todos_id_seq (database b) + 1;
                               text := t; completed := false |}))) ∧
      database (post_api_todos link body b).2 =
        {| todos := <[todos_id_seq (database b) + 1 := (t, false)]>
                      (todos (database b));
           todos_id_seq := todos_id_seq (database b) + 1 |}.
Proof.
  unfold post_api_todos.
  destruct (destructure body (js "text")) as [e|v]; [by left|].
  destruct (negb (truthy v)); [by left|].
  destruct v as [| | | |s| |]; try by left.
  case_bool_decide; [by left|].
  destruct link; [|right; by left].
  unfold with_client, query. cbv zeta.
  case_bool_decide; [right; by left|].
  destruct (varchar 255 (utf8 s)) as [t|]; [|right; by left].
  case_bool_decide; [right; by left|].
  right. right. exists t. simpl. split; [lia|done].
Qed.

Lemma post_created link body b r :
  (post_api_todos link body b).1 = Sent r → status r = 201 →
  ∃ t,
    r = status_json 201
          (Row0 (Some {| id := todos_id_seq (database b) + 1;
                         text := t; completed := false |})) ∧
    database (post_api_todos link body b).2 =
      {| todos := <[todos_id_seq (database b) + 1 := (t, false)]>
                    (todos (database b));
         todos_id_seq := todos_id_seq (database b) + 1 |}.
Proof.
  intros Hr H201.
  destruct (post_effect link body b) as [[_ Hc]|[[Hc _]|(t & _ & Ho & Hd)]].
  - rewrite Hr in Hc. simpl in Hc. rewrite H201 in Hc. done.
  - rewrite Hr in Hc. simpl in Hc. rewrite H201 in Hc. done.
  - exists t. rewrite Hr in Ho. by injection Ho as ->.
Qed.

(** X5: identifiers only grow.  Of two creates answered 201, the later one
    gets the greater [id], whatever requests came in between (deletes
    included): an [id] is never handed out twice. *)
Theorem ids_increase link1 body1 b r1 todo1 script link2 body2 r2 todo2 :
  (post_api_todos link1 body1 b).1 = Sent r1 →
  status r1 = 201 → payload r1 = Row0 (Some todo1) →
  (post_api_todos link2 body2
     (run script (post_api_todos link1 body1 b).2)).1 = Sent r2 →
  status r2 = 201 → payload r2 = Row0 (Some todo2) →
  id todo1 < id todo2.
Proof.
  intros Hr1 Hs1 Hp1 Hr2 Hs2 Hp2.
  destruct (post_created _ _ _ _ Hr1 Hs1) as (t1 & -> & Hd1).
  destruct (post_created _ _ _ _ Hr2 Hs2) as (t2 & -> & _).
  simpl in Hp1, Hp2. injection Hp1 as <-. injection Hp2 as <-. simpl.
  pose proof (run_seq_mono script (post_api_todos link1 body1 b).2) as Hmono.
  rewrite Hd1 in Hmono. simpl in Hmono. lia.
Qed.

Lemma ids_increase_witness :
  id {| id := 1; text := js "a"; completed := false |}
  < id {| id := 2; text := js "b"; completed := false |}.
Proof.
  apply (ids_increase Up (text_body (js "a")) boot
           (status_json 201 (Row0 (Some {| id := 1; text := js "a";
                                           completed := false |})))
           {| id := 1; text := js "a"; completed := false |}
           [(Up, DELETE_todos_id (js "1")); (Up, GET_todos)]
           Up (text_body (js "b"))
           (status_json 201 (Row0 (Some {| id := 2; text := js "b";
                                           completed := false |})))
           {| id := 2; text := js "b"; completed := false |});
    vm_compute; reflexivity.
Defined.

(** X6: an update can be sent again without harm.  While the store is
    reachable, repeating an update request gets the same answer as the
    first time and leaves the database as the first one left it. *)
Theorem update_idempotent p body b :
  (put_api_todos_id Up p body (put_api_todos_id Up p body b).2).1
    = (put_api_todos_id Up p body b).1 ∧
  database (put_api_todos_id Up p body (put_api_todos_id Up p body b).2).2
    = database (put_api_todos_id Up p body b).2.
Proof.
  unfold put_api_todos_id.
  destruct (destructure body (js "completed")) as [e|v]; [done|].
  destruct v as [| |c| | | |]; try done.
  destruct (parseInt p) as [i|]; [|done].
  unfold with_client, query.
  destruct (negb (is_int4 i)) eqn:Hi; simpl; [done|].
  destruct (todos (database b) !! i) as [[t c0]|] eqn:Hrow; simpl.
  - rewrite lookup_insert_eq. simpl. by rewrite insert_insert_eq.
  - by rewrite Hrow.
Qed.

Lemma post_rejects_field link body text b :
  destructure body (js "text") = inr text →
  ((∃ r, (post_api_todos link body b).1 = Sent r ∧ status r = 400)
   ↔ truthy text = false ∨ ∃ s, text = VStr s ∧ blank s).
Proof.
  intros Hd. split.
  - intros (r & Hr & H400).
    unfold post_api_todos in Hr. rewrite Hd in Hr.
    destruct (truthy text) eqn:Ht; [|by left]. right. simpl in Hr.
    destruct text as [| | | |s| |]; try done.
    case_bool_decide as Hs; [exists s; split; [done|by apply trim_nil_blank]|].
    exfalso. destruct link; [|by injection Hr as <-].
    unfold with_client in Hr.
    destruct (query (Insert s) (database b)) as [[e|res] d];
      by injection Hr as <-.
  - intros Hrej. exists empty_text. split; [|done].
    unfold post_api_todos. rewrite Hd.
    destruct Hrej as [->|(s & -> & Hs)]; [done|].
    destruct (negb (truthy (VStr s))); [done|].
    by rewrite bool_decide_eq_true_2 by by apply trim_blank.
Qed.

(** X10: the create route answers 400 exactly when the body is there to be
    destructured (it is neither [undefined] nor [null]) and its [text] is
    falsy (absent, [null], [false], [0], [NaN], the empty string) or a
    string of white space only.  On any other request it answers something
    else or, the body missing, raises. *)
Theorem create_rejects_iff link body b :
  (∃ r, (post_api_todos link body b).1 = Sent r ∧ status r = 400)
  ↔ ∃ text,
      destructure body (js "text") = inr text ∧
      (truthy text = false ∨ ∃ s, text = VStr s ∧ blank s).
Proof.
  destruct (destructure body (js "text")) as [e|text] eqn:Hd.
  - split.
    + intros (r & Hr & _). unfold post_api_todos in Hr. by rewrite Hd in Hr.
    + by intros (text & ? & _).
  - rewrite (post_rejects_field link body text b Hd). split.
    + intros Hrej. by exists text.
    + by intros (text' & [= <-] & Hrej).
Qed.

Lemma delete_effect link p b :
  database (delete_api_todos_id link p b).2 = database b ∨
  ∃ i,
    parseInt p = Some i ∧ is_Some (todos (database b) !! i) ∧
    (delete_api_todos_id link p b).1 = Sent deleted ∧
    database (delete_api_todos_id link p b).2 =
      {| todos := delete i (todos (database b));
         todos_id_seq := todos_id_seq (database b) |}.
Proof.
  unfold delete_api_todos_id.
  destruct (parseInt p) as [i|] eqn:Hp; [|by left].
  destruct link; [|by left].
  unfold with_client, query.
  destruct (negb (is_int4 i)); [by left|].
  destruct (todos (database b) !! i) as [r|] eqn:Hrow; [|by left].
  right. exists i. by rewrite Hrow.
Qed.

(** X8: a request touches at most the row it addresses.  A row of the
    table is found unchanged after any request, unless the request is an
    update whose path parses to the row's [id] (then [id] and [text] are
    kept) or a delete whose path parses to it (then the row is gone). *)
Theorem request_frame link req b k t c :
  wf (database b) → todos (database b) !! k = Some (t, c) →
  todos (database (handle link req b).2) !! k = Some (t, c)
  ∨ (∃ p body c',
       req = PUT_todos_id p body ∧ parseInt p = Some k ∧
       todos (database (handle link req b).2) !! k = Some (t, c'))
  ∨ (∃ p,
       req = DELETE_todos_id p ∧ parseInt p = Some k ∧
       todos (database (handle link req b).2) !! k = None).
Proof.
  intros Hwf Hk. destruct req as [|body|p body|p]; simpl.
  - left. by destruct (get_size link b) as [-> _].
  - left.
    destruct (post_effect link body b) as [[-> _]|[[_ ->]|(s & _ & _ & ->)]];
      try done.
    simpl. rewrite lookup_insert_ne; [done|].
    intros <-. by rewrite wf_next_fresh in Hk.
  - destruct (put_effect link p body b)
      as [->|(i & t0 & c0 & c1 & Hp & Hi & ->)]; [by left|]. simpl.
    destruct (decide (i = k)) as [->|Hne].
    + right. left. exists p, body, c1. rewrite lookup_insert_eq.
      rewrite Hk in Hi. by injection Hi as <- <-.
    + left. by rewrite lookup_insert_ne.
  - destruct (delete_effect link p b) as [->|(i & Hp & _ & _ & ->)];
      [by left|]. simpl.
    destruct (decide (i = k)) as [->|Hne].
    + right. right. exists p. by rewrite lookup_delete_eq.
    + left. by rewrite lookup_delete_ne.
Qed.

Lemma request_frame_witness :
  todos (database
    (handle Up (DELETE_todos_id (js "1"))
       (run [(Up, POST_todos (text_body (js "a")));
             (Up, POST_todos (text_body (js "b")))] boot)).2) !! 2
    = Some (js "b", false)
  ∨ (∃ p body c',
       DELETE_todos_id (js "1") = PUT_todos_id p body ∧ parseInt p = Some 2 ∧
       todos (database
         (handle Up (DELETE_todos_id (js "1"))
            (run [(Up, POST_todos (text_body (js "a")));
                  (Up, POST_todos (text_body (js "b")))] boot)).2) !! 2
         = Some (js "b", c'))
  ∨ (∃ p,
       DELETE_todos_id (js "1") = DELETE_todos_id p ∧ parseInt p = Some 2 ∧
       todos (database
         (handle Up (DELETE_todos_id (js "1"))
            (run [(Up, POST_todos (text_body (js "a")));
                  (Up, POST_todos (text_body (js "b")))] boot)).2) !! 2
         = None).
Proof.
  apply (request_frame Up (DELETE_todos_id (js "1"))
           (run [(Up, POST_todos (text_body (js "a")));
                 (Up, POST_todos (text_body (js "b")))] boot)
           2 (js "b") false).
  - apply run_wf, wf_boot.
  - vm_compute. reflexivity.
Defined.

Global Instance id_lt_dec a b : Decision (id_lt a b).
Proof. unfold id_lt. apply _. Defined.

Lemma select_all_insert_last d t :
  wf d →
  select_all {| todos := <[todos_id_seq d + 1 := (t, false)]> (todos d);
                todos_id_seq := todos_id_seq d + 1 |}
  = select_all d
    ++ [ {| id := todos_id_seq d + 1; text := t; completed := false |} ].
Proof.
  intros Hwf. pose proof Hwf as [_ Hkeys].
  apply (StronglySorted_unique_strong id_lt).
  - unfold id_lt. intros. lia.
  - apply select_all_sorted.
  - apply StronglySorted_app. split; [|split].
    + intros x1 x2 Hx1 ->%list_elem_of_singleton.
      apply elem_of_select_all in Hx1.
      assert (Hs : is_Some (todos d !! id x1)) by by rewrite Hx1.
      specialize (Hkeys _ Hs). unfold id_lt. simpl. lia.
    + apply select_all_sorted.
    + repeat constructor.
  - rewrite !select_all_perm. simpl.
    rewrite map_to_list_insert by by apply wf_next_fresh.
    rewrite fmap_cons. unfold to_todo at 1. simpl.
    by rewrite Permutation_app_comm.
Qed.

(** X9: a new Todo shows up at the end of the list.  After a create that
    was answered 201, the list is the list of before followed by the Todo
    of the answer. *)
Theorem create_then_list link body b r todo :
  wf (database b) →
  (post_api_todos link body b).1 = Sent r →
  status r = 201 → payload r = Row0 (Some todo) →
  ∃ l,
    (get_api_todos Up b).1 = Sent (json (Todos l)) ∧
    (get_api_todos Up (post_api_todos link body b).2).1
      = Sent (json (Todos (l ++ [todo]))).
Proof.
  intros Hwf Hr H201 Hp.
  destruct (post_created link body b r Hr H201) as (t & -> & Hd).
  simpl in Hp. injection Hp as <-.
  exists (select_all (database b)). split; [done|].
  rewrite get_up. simpl. rewrite Hd.
  by rewrite select_all_insert_last.
Qed.

Lemma create_then_list_witness :
  ∃ l,
    (get_api_todos Up
       (run [(Up, POST_todos (text_body (js "a")))] boot)).1
      = Sent (json (Todos l)) ∧
    (get_api_todos Up
       (post_api_todos Up (text_body (js "b"))
          (run [(Up, POST_todos (text_body (js "a")))] boot)).2).1
      = Sent (json (Todos (l ++ [ {| id := 2; text := js "b";
                                     completed := false |} ]))).
Proof.
  apply (create_then_list Up (text_body (js "b"))
           (run [(Up, POST_todos (text_body (js "a")))] boot)
           (status_json 201 (Row0 (Some {| id := 2; text := js "b";
                                           completed := false |})))).
  - apply run_wf, wf_boot.
  - vm_compute. reflexivity.
  - reflexivity.
  - reflexivity.
Defined.

(** X11: a create undone by a delete.  Deleting the Todo a create just
    returned (the client's delete request for its [id]) is answered 200 and
    leaves the table as it was before the create; only the sequence has
    moved, so that the [id] is not given again. *)
Theorem create_then_delete link body b r todo :
  wf (database b) →
  (post_api_todos link body b).1 = Sent r →
  status r = 201 → payload r = Row0 (Some todo) →
  ∃ b2,
    handle Up (App.deleteTodo (id todo)) (post_api_todos link body b).2
      = (Sent deleted, b2) ∧
    todos (database b2) = todos (database b) ∧
    todos_id_seq (database b2) = id todo ∧
    todos_id_seq (database b) < id todo.
Proof.
  intros Hwf Hr H201 Hp.
  destruct (post_created link body b r Hr H201) as (t & -> & Hd).
  simpl in Hp. injection Hp as <-. simpl.
  assert (Hi : is_int4 (todos_id_seq (database b) + 1) = true).
  { destruct (post_effect link body b) as [[_ Hc]|[[Hc _]|(s & Hlt & _ & _)]];
      [by rewrite Hr in Hc..|].
    destruct Hwf as [Hseq _]. apply is_int4_spec.
    unfold int4_min, int4_max in *. lia. }
  rewrite (delete_valid Up _ _ _ (parseInt_Number_toString _)).
  erewrite with_client_up.
  2:{ apply query_delete_hit; [done|]. rewrite Hd. simpl.
      by rewrite lookup_insert_eq. }
  eexists. split; [reflexivity|]. rewrite Hd. simpl.
  rewrite delete_insert_eq, delete_id by by apply wf_next_fresh.
  repeat split. lia.
Qed.

Lemma create_then_delete_witness :
  ∃ b2,
    handle Up (App.deleteTodo 1) (post_api_todos Up (text_body (js "a")) boot).2
      = (Sent deleted, b2) ∧
    todos (database b2) = todos (database boot) ∧
    todos_id_seq (database b2) = 1 ∧
    todos_id_seq (database boot) < 1.
Proof.
  apply (create_then_delete Up (text_body (js "a")) boot
           (status_json 201 (Row0 (Some {| id := 1; text := js "a";
                                           completed := false |})))
           {| id := 1; text := js "a"; completed := false |}).
  - apply wf_boot.
  - vm_compute. reflexivity.
  - reflexivity.
  - reflexivity.
Defined.

(** ** The identifiers the routes accept *)

Lemma trimStart_app_blank ws s : blank ws → trimStart (ws ++ s) = trimStart s.
Proof. induction 1 as [|c ws Hc _ IH]; simpl; [done|]. by rewrite Hc. Qed.

Lemma trimStart_split s : ∃ ws, s = ws ++ trimStart s ∧ blank ws.
Proof.
  induction s as [|c s (ws & Hs & Hws)]; simpl;
    [exists []; split; [done|constructor]|].
  destruct (is_white_space c) eqn:Hc.
  - exists (c :: ws). split; [simpl; congruence|by constructor].
  - exists []. split; [done|constructor].
Qed.

Lemma digits_split s : ∃ ds rest, s = ds ++ rest ∧ digits ds ∧ stops rest.
Proof.
  induction s as [|c s (ds & rest & Hs & Hds & Hrest)];
    [exists [], []; split; [done|split; [constructor|done]]|].
  destruct (is_digit c) eqn:Hc.
  - exists (c :: ds), rest. split; [simpl; congruence|].
    split; [by constructor|done].
  - exists [], (c :: s). split; [done|split; [constructor|done]].
Qed.

Lemma parseInt_app_blank ws s : blank ws → parseInt (ws ++ s) = parseInt s.
Proof. intros Hws. unfold parseInt. by rewrite trimStart_app_blank. Qed.

Lemma parseInt_signed sg d s :
  sg = 45%N ∨ sg = 43%N → is_digit d = true →
  parseInt (sg :: d :: s)
    = Some ((if bool_decide ([sg] = [45%N]) then -1 else 1)
            * digits_value 0 (d :: s)).
Proof.
  intros Hsg Hd. unfold parseInt.
  destruct Hsg as [-> | ->]; cbn [trimStart].
  - change (is_white_space 45) with false. cbn iota.
    change (45 =? 45)%N with true. cbn iota. by rewrite Hd.
  - change (is_white_space 43) with false. cbn iota.
    change (43 =? 45)%N with false. change (43 =? 43)%N with true.
    cbn iota. by rewrite Hd.
Qed.

Lemma parseInt_spec p n : parseInt p = Some n ↔ integer_prefix p n.
Proof.
  split.
  - unfold parseInt. destruct (trimStart_split p) as (ws & Hp & Hws).
    destruct (trimStart p) as [|c s1] eqn:Hs1; [done|].
    assert (Hshape : ∀ sg s2 sign,
              (sg = [] ∨ sg = [45%N] ∨ sg = [43%N]) →
              sign = (if bool_decide (sg = [45%N]) then -1 else 1) →
              c :: s1 = sg ++ s2 →
              match s2 with
              | c' :: _ =>
                  if is_digit c' then Some (sign * digits_value 0 s2) else None
              | [] => None
              end = Some n →
              integer_prefix p n).
    { intros sg s2 sign Hsg Hsign Hcs Hn.
      destruct s2 as [|c' s2']; [done|].
      destruct (is_digit c') eqn:Hc'; [|done]. injection Hn as <-.
      destruct (digits_split (c' :: s2')) as (ds & rest & Hsplit & Hds & Hrest).
      assert (ds ≠ []).
      { intros ->. simpl in Hsplit. subst rest. simpl in Hrest. congruence. }
      change (if is_digit c' then digits_value (10 * 0 + digit_value c') s2'
              else 0) with (digits_value 0 (c' :: s2')).
      exists ws, sg, ds, rest. rewrite <- Hsplit, <- Hcs.
      repeat split; try done.
      rewrite Hsplit, digits_value_prefix by done. by subst sign. }
    destruct (c =? 45)%N eqn:E45; [|destruct (c =? 43)%N eqn:E43].
    + apply N.eqb_eq in E45 as ->.
      by apply (Hshape [45%N] s1 (-1)); auto.
    + apply N.eqb_eq in E43 as ->.
      by apply (Hshape [43%N] s1 1); auto.
    + by apply (Hshape [] (c :: s1) 1); auto.
  - intros (ws & sg & ds & rest & -> & Hws & Hsg & Hne & Hds & Hrest & ->).
    rewrite parseInt_app_blank by done.
    destruct ds as [|d ds]; [done|].
    assert (Hd : is_digit d = true) by by inversion Hds.
    destruct Hsg as [->|[->| ->]].
    + rewrite app_nil_l, parseInt_prefix by done.
      rewrite bool_decide_eq_false_2 by done. f_equal. lia.
    + rewrite <- app_comm_cons. cbn [app].
      rewrite parseInt_signed by (done || auto).
      rewrite (app_comm_cons ds rest d), digits_value_prefix by done.
      by rewrite bool_decide_eq_true_2.
    + rewrite <- app_comm_cons. cbn [app].
      rewrite parseInt_signed by (done || auto).
      rewrite (app_comm_cons ds rest d), digits_value_prefix by done.
      by rewrite bool_decide_eq_false_2.
Qed.

(** X16: the identifiers the delete and update routes accept are exactly
    those made of optional white space, an optional sign and at least one
    decimal digit, followed by anything; such a path, when the number read
    lies within the range of the [id] column, is handled as the client's
    own request for that number. *)
Theorem path_accepted_iff link p c b :
  ((delete_api_todos_id link p b).1 ≠ Sent invalid_id
   ↔ ∃ n, integer_prefix p n) ∧
  ((put_api_todos_id link p (completed_body c) b).1 ≠ Sent invalid_id
   ↔ ∃ n, integer_prefix p n) ∧
  (∀ n, integer_prefix p n → is_int4 n = true →
        delete_api_todos_id link p b = handle link (App.deleteTodo n) b ∧
        put_api_todos_id link p (completed_body c) b
          = handle link (App.toggleComplete n (negb c)) b).
Proof.
  assert (Hsome : (∃ n, integer_prefix p n) ↔ parseInt p ≠ None).
  { split.
    - intros (n & Hn%parseInt_spec). congruence.
    - destruct (parseInt p) as [n|] eqn:Hp; [|done].
      intros _. exists n. by apply parseInt_spec. }
  split; [|split].
  - by rewrite Hsome, delete_invalid_id_iff.
  - by rewrite Hsome, put_invalid_id_iff.
  - intros n Hn%parseInt_spec _. simpl. rewrite negb_involutive.
    pose proof (parseInt_Number_toString n) as Hn'. split.
    + by rewrite (delete_valid link p n b Hn), (delete_valid link _ n b Hn').
    + by rewrite (put_valid link p n (completed_body c) c b eq_refl Hn),
                 (put_valid link _ n (completed_body c) c b eq_refl Hn').
Qed.

(** ** Client and server together *)

Lemma rejected_database link req b :
  App.resolves (deliver (handle link req b).1) = false →
  database (handle link req b).2 = database b.
Proof.
  ending_cases link req b.
  match goal with
  | H : status ?r ∈ [200; 201; 404; 500], H' : status ?r ∈ [404; 500] → _ |- _ =>
      intros Hres; simpl; apply H';
      rewrite !elem_of_cons, elem_of_nil in H;
      destruct H as [H|[H|H]];
      [unfold App.resolves in Hres; simpl in Hres; by rewrite H in Hres..|];
      rewrite !elem_of_cons, elem_of_nil; lia
  end.
Qed.

Lemma fetch_consistent link w :
  consistent (Session.fetchTodos link w) ∧
  database (Session.server (Session.fetchTodos link w))
    = database (Session.server w).
Proof.
  unfold Session.fetchTodos. destruct link.
  - rewrite get_up. split; [|done]. by left.
  - rewrite get_down. split; [|done]. by right.
Qed.

Lemma addTodo_settles : settles App.addTodo_settled.
Proof.
  intros r st. unfold App.addTodo_settled. by destruct (App.resolves r).
Qed.

Lemma toggleComplete_settles : settles App.toggleComplete_settled.
Proof.
  intros r st. unfold App.toggleComplete_settled. by destruct (App.resolves r).
Qed.

Lemma deleteTodo_settles : settles App.deleteTodo_settled.
Proof.
  intros r st. unfold App.deleteTodo_settled. by destruct (App.resolves r).
Qed.

Lemma mutate_consistent link link' req settled w :
  settles settled → consistent w →
  consistent (Session.mutate link link' req settled w).
Proof.
  intros Hs Hw. unfold Session.mutate.
  pose proof (rejected_database link req (Session.server w)) as Hdb.
  destruct (handle link req (Session.server w)) as [o b]; simpl in Hdb.
  specialize (Hs (deliver o) (Session.client w)).
  destruct (settled (deliver o) (Session.client w)) as [st refetch].
  destruct (App.resolves (deliver o)); simpl in Hs.
  - subst refetch. apply fetch_consistent.
  - destruct Hs as (-> & Htodos & Hshown).
    destruct Hw as [Hm|[Hnil _]].
    + left. unfold mirrors in *. simpl. by rewrite Htodos, Hdb.
    + right. simpl. by rewrite Htodos.
Qed.

Lemma act_consistent link link' a w :
  consistent w → consistent (Session.act link link' a w).
Proof.
  intros Hw. destruct a as [|s| |i c|i]; simpl.
  - apply fetch_consistent.
  - done.
  - destruct (App.addTodo (Session.client w)); [|done].
    apply mutate_consistent; [apply addTodo_settles|done].
  - apply mutate_consistent; [apply toggleComplete_settles|done].
  - apply mutate_consistent; [apply deleteTodo_settles|done].
Qed.


Lemma play_consistent script w :
  consistent w → consistent (Session.play script w).
Proof.
  revert w. induction script as [|[[l l'] a] script IH]; intros w Hw; [done|].
  apply IH. by apply act_consistent.
Qed.

(** X22: at rest, the placeholder of the empty list tells the truth.
    When the actions of the one client run one after another, each to its
    end before the next begins, and nothing else writes the table, then from
    the first fetch on, if the state the page is left in after the last
    action draws "no todos yet" (no error, no item), the table is empty.
    While a request is pending this can fail
    ([placeholder_while_pending]). *)
Theorem placeholder_is_truthful link script b :
  App.empty_message
    (App.render
       (Session.client
          (Session.play script (Session.fetchTodos link (Session.open b)))))
  = true →
  todos (database
    (Session.server
       (Session.play script (Session.fetchTodos link (Session.open b)))))
  = ∅.
Proof.
  pose proof (play_consistent script _
                (proj1 (fetch_consistent link (Session.open b)))) as Hc.
  revert Hc.
  generalize (Session.play script (Session.fetchTodos link (Session.open b))).
  intros w Hc. unfold App.render. simpl.
  intros [Herr Hlen%bool_decide_eq_true]%andb_true_iff.
  destruct Hc as [Hm|[_ Hshown]].
  - apply map_size_empty_inv. rewrite <- select_all_length.
    unfold mirrors in Hm. rewrite Hm, length_fmap in Hlen. done.
  - rewrite Hshown in Herr. done.
Qed.

Lemma placeholder_is_truthful_witness :
  todos (database
    (Session.server
       (Session.play [(Up, Up, Session.Type_ (js " ")); (Up, Up, Session.Submit)]
          (Session.fetchTodos Up (Session.open boot)))))
  = ∅.
Proof.
  apply (placeholder_is_truthful Up
           [(Up, Up, Session.Type_ (js " ")); (Up, Up, Session.Submit)] boot).
  vm_compute. reflexivity.
Defined.

(** Between the [setError(null)] of a mutation and its settlement the
    placeholder can be drawn over a table that is not empty: a todo is
    added, the fetch that follows fails (empty list, error message), and the
    next submission clears the message while its request is pending. *)
Lemma placeholder_while_pending :
  let w :=
    Session.play
      [(Up, Up, Session.Type_ (js "a")); (Up, Down, Session.Submit);
       (Up, Up, Session.Type_ (js "b"))]
      (Session.fetchTodos Up (Session.open boot)) in
  App.empty_message (App.render (Session.client w)) = false ∧
  (∃ req, App.addTodo (Session.client w) = Some req) ∧
  App.empty_message (App.render (Session.client (Session.pending w))) = true ∧
  todos (database (Session.server w)) !! 1 = Some (js "a", false).
Proof.
  intros w. split; [by vm_compute|]. split; [by eexists|].
  split; by vm_compute.
Qed.

Lemma with_client_status link q k b :
  (∀ result, status (k result) ≠ 400) →
  ∃ r, (with_client link q k b).1 = Sent r ∧ status r ≠ 400 ∧
       (length (journal b) < length (journal (with_client link q k b).2))%nat.
Proof.
  intros Hk. destruct link; simpl.
  - destruct (query q (database b)) as [[e|result] d]; simpl;
      (eexists; split; [done|split; [done || apply Hk|]]);
      rewrite length_app; simpl; lia.
  - eexists. split; [done|split; [done|]]. rewrite length_app. simpl. lia.
Qed.

Lemma from_client_reaches_store link req b :
  from_client req →
  ∃ r, (handle link req b).1 = Sent r ∧ status r ≠ 400 ∧
       (length (journal b) < length (journal (handle link req b).2))%nat.
Proof.
  intros [->|[[st Hreq]|[(i & c & ->)|(i & ->)]]]; simpl.
  - by apply with_client_status.
  - unfold App.addTodo in Hreq. case_bool_decide as Ht; [done|].
    injection Hreq as <-. simpl.
    rewrite (post_valid link (VObj [(js "text", VStr (App.newTodoText st))])
               (App.newTodoText st) b eq_refl Ht).
    by apply with_client_status.
  - rewrite (put_valid link _ i (completed_body (negb c)) (negb c) b eq_refl
               (parseInt_Number_toString i)).
    apply with_client_status. intros result. by case_bool_decide.
  - rewrite (delete_valid link _ i b (parseInt_Number_toString i)).
    apply with_client_status. intros result. by case_bool_decide.
Qed.

(** X13: the client never sends what the server rejects.  Whatever the
    input, the item clicked and the state of the backend, a request built
    by [fetchTodos], [addTodo], [toggleComplete] or [deleteTodo] passes the
    validation of its route: the handler does not raise and does not answer
    400. *)
Theorem client_requests_are_valid link req b :
  from_client req →
  ∃ r, (handle link req b).1 = Sent r ∧ status r ∈ [200; 201; 404; 500].
Proof.
  intros Hreq.
  destruct (from_client_reaches_store link req b Hreq) as (r & Hr & H400 & _).
  exists r. split; [done|].
  pose proof (handle_ending link req b) as He. rewrite Hr in He.
  inversion He as [r' Hin| | |]; subst; [|set_solver..].
  exfalso. rewrite !elem_of_cons, elem_of_nil in Hin.
  destruct Hin as [->|[->|[->|[]]]]; by apply H400.
Qed.

Lemma client_requests_are_valid_witness :
  ∃ r, (handle Up (App.deleteTodo (-3)) boot).1 = Sent r ∧
       status r ∈ [200; 201; 404; 500].
Proof.
  apply (client_requests_are_valid Up (App.deleteTodo (-3)) boot).
  right. right. right. by exists (-3).
Defined.

(** X14: submitting the form does nothing at all exactly when the input is
    blank: then no request leaves the client and even a displayed error
    stays; otherwise a request reaches the pool. *)
Theorem submit_ignored_iff link link' w :
  Session.act link link' Session.Submit w = w
  ↔ blank (App.newTodoText (Session.client w)).
Proof.
  simpl. unfold App.addTodo at 1. split.
  - case_bool_decide as Ht; [intros _; by apply trim_nil_blank|].
    intros Hw. exfalso.
    assert (Hlt : (length (journal (Session.server w))
                   < length (journal (Session.server
                       (Session.mutate link link'
                          (POST_todos (VObj [(js "text",
                             VStr (App.newTodoText (Session.client w)))]))
                          App.addTodo_settled w))))%nat);
      [|rewrite Hw in Hlt; lia].
    unfold Session.mutate.
    destruct (from_client_reaches_store link
                (POST_todos (VObj [(js "text",
                   VStr (App.newTodoText (Session.client w)))]))
                (Session.server w)) as (r & _ & _ & Hlen).
    { right. left. exists (Session.client w). unfold App.addTodo.
      by rewrite bool_decide_eq_false_2. }
    destruct (handle link _ (Session.server w)) as [o b]. simpl in Hlen.
    destruct (App.addTodo_settled (deliver o) (Session.client w))
      as [st [|]]; [|done].
    unfold Session.fetchTodos. simpl.
    destruct link'; simpl; rewrite length_app; simpl; lia.
  - intros Hb. by rewrite bool_decide_eq_true_2 by by apply trim_blank.
Qed.



(** ** The list after a mutation *)

Lemma sorted_same_elements l1 l2 :
  StronglySorted id_lt l1 → StronglySorted id_lt l2 →
  NoDup l1 → NoDup l2 → (∀ x, x ∈ l1 ↔ x ∈ l2) → l1 = l2.
Proof.
  intros Hs1 Hs2 Hn1 Hn2 Hel.
  apply (StronglySorted_unique_strong id_lt); try done.
  - unfold id_lt. intros. lia.
  - by apply NoDup_Permutation.
Qed.

Lemma select_all_NoDup d : NoDup (select_all d).
Proof. apply (NoDup_fmap_1 id), select_all_NoDup_id. Qed.

Lemma sorted_filter (P : Todo → Prop) `{∀ x, Decision (P x)} l :
  StronglySorted id_lt l → StronglySorted id_lt (filter P l).
Proof.
  induction 1 as [|a l _ IH Hall]; [constructor|].
  rewrite filter_cons. destruct (decide (P a)); [|done].
  constructor; [done|].
  rewrite Forall_forall in Hall |- *. intros x [_ Hx]%list_elem_of_filter.
  by apply Hall.
Qed.

Lemma select_all_delete d i :
  select_all {| todos := delete i (todos d); todos_id_seq := todos_id_seq d |}
  = filter (λ t, id t ≠ i) (select_all d).
Proof.
  apply sorted_same_elements.
  - apply select_all_sorted.
  - apply sorted_filter, select_all_sorted.
  - apply select_all_NoDup.
  - apply NoDup_filter, select_all_NoDup.
  - intros x. rewrite list_elem_of_filter, !elem_of_select_all. simpl.
    rewrite lookup_delete_Some. naive_solver.
Qed.

Lemma select_all_update d i t c0 c :
  todos d !! i = Some (t, c0) →
  select_all {| todos := <[i := (t, c)]> (todos d);
                todos_id_seq := todos_id_seq d |}
  = (λ x, if decide (id x = i) then set_completed c x else x)
      <$> select_all d.
Proof.
  intros Hrow.
  apply sorted_same_elements.
  - apply select_all_sorted.
  - apply (StronglySorted_fmap _ id_lt id_lt); [|apply select_all_sorted].
    intros x y. unfold id_lt. by repeat case_decide.
  - apply select_all_NoDup.
  - apply (NoDup_fmap_1 id). rewrite <- list_fmap_compose.
    erewrite list_fmap_ext; [apply select_all_NoDup_id|].
    intros k x _. simpl. by case_decide.
  - intros x. rewrite list_elem_of_fmap, elem_of_select_all. simpl. split.
    + destruct (decide (id x = i)) as [Hi|Hne].
      * rewrite Hi, lookup_insert_eq. intros [= Ht Hc].
        exists {| id := i; text := t; completed := c0 |}. split.
        -- rewrite decide_True by done. destruct x; simpl in *. by subst.
        -- by apply elem_of_select_all.
      * rewrite lookup_insert_ne by done. intros Hx.
        exists x. split; [by rewrite decide_False|].
        by apply elem_of_select_all.
    + intros (y & -> & Hy%elem_of_select_all).
      case_decide as Hi; simpl.
      * rewrite Hi, lookup_insert_eq. rewrite Hi, Hrow in Hy.
        by injection Hy as <- _.
      * by rewrite lookup_insert_ne.
Qed.

(** X17: a deleted Todo leaves the list and nothing else moves.  After a
    delete that was answered 200, the list is the list of before without
    the item of that [id], the others in the same order. *)
Theorem delete_then_list link p i b :
  parseInt p = Some i →
  (delete_api_todos_id link p b).1 = Sent deleted →
  ∃ l : list Todo,
    (get_api_todos Up b).1 = Sent (json (Todos l)) ∧
    (get_api_todos Up (delete_api_todos_id link p b).2).1
      = Sent (json (Todos (filter (λ t, id t ≠ i) l))) ∧
    length (filter (λ t, id t ≠ i) l) = (length l - 1)%nat.
Proof.
  intros Hp H. exists (select_all (database b)). split; [done|].
  revert H. unfold delete_api_todos_id. rewrite Hp.
  destruct link; [|done]. unfold with_client, query.
  destruct (negb (is_int4 i)); [done|].
  destruct (todos (database b) !! i) as [r|] eqn:Hrow; [|done].
  intros _. rewrite get_up. simpl.
  rewrite <- select_all_delete. split; [done|].
  rewrite !select_all_length. simpl.
  rewrite map_size_delete_Some by done. lia.
Qed.

Lemma delete_then_list_witness :
  ∃ l,
    (get_api_todos Up
       (run [(Up, POST_todos (text_body (js "a")));
             (Up, POST_todos (text_body (js "b")))] boot)).1
      = Sent (json (Todos l)) ∧
    (get_api_todos Up
       (delete_api_todos_id Up (js "1")
          (run [(Up, POST_todos (text_body (js "a")));
                (Up, POST_todos (text_body (js "b")))] boot)).2).1
      = Sent (json (Todos (filter (λ t, id t ≠ 1) l))) ∧
    length (filter (λ t, id t ≠ 1) l) = (length l - 1)%nat.
Proof.
  apply (delete_then_list Up (js "1") 1
           (run [(Up, POST_todos (text_body (js "a")));
                 (Up, POST_todos (text_body (js "b")))] boot)).
  - reflexivity.
  - vm_compute. reflexivity.
Defined.

(** X18: an update changes one item of the list in place.  After an
    update that was answered 200 with a Todo, the list is the list of
    before with [completed] set on the item of that [id], every item at the
    position it had. *)
Theorem update_then_list link p i c body b todo :
  destructure body (js "completed") = inr (VBool c) →
  parseInt p = Some i →
  (put_api_todos_id link p body b).1 = Sent (json (Row0 (Some todo))) →
  id todo = i ∧ completed todo = c ∧
  ∃ l,
    (get_api_todos Up b).1 = Sent (json (Todos l)) ∧
    (get_api_todos Up (put_api_todos_id link p body b).2).1
      = Sent (json (Todos
          ((λ x, if decide (id x = i) then set_completed c x else x) <$> l))).
Proof.
  intros Hd Hp. rewrite (put_valid link p i body c b Hd Hp).
  destruct link; [|done]. unfold with_client, query.
  destruct (negb (is_int4 i)); [done|].
  destruct (todos (database b) !! i) as [[t c0]|] eqn:Hrow; [|done].
  simpl. intros [= <-]. repeat split.
  exists (select_all (database b)). split; [done|].
  by rewrite (select_all_update _ _ _ _ _ Hrow).
Qed.

Lemma update_then_list_witness :
  ∃ l,
    (get_api_todos Up
       (run [(Up, POST_todos (text_body (js "a")))] boot)).1
      = Sent (json (Todos l)) ∧
    (get_api_todos Up
       (put_api_todos_id Up (js "1") (completed_body true)
          (run [(Up, POST_todos (text_body (js "a")))] boot)).2).1
      = Sent (json (Todos
          ((λ x, if decide (id x = 1) then set_completed true x else x)
             <$> l))).
Proof.
  refine (proj2 (proj2
    (update_then_list Up (js "1") 1 true (completed_body true)
       (run [(Up, POST_todos (text_body (js "a")))] boot)
       {| id := 1; text := js "a"; completed := true |} _ _ _))).
  - reflexivity.
  - reflexivity.
  - vm_compute. reflexivity.
Defined.

(** ** The schema initializer *)

Lemma setup_env env first second :
  complete env ∧
    SetupDb.setupDatabase env first second
    = SetupDb.steps (default [] (SetupDb.PGDATABASE env))
        (bool_decide (SetupDb.PGSSLMODE env = Some (js "require")))
        first second
  ∨ ¬ complete env ∧ SetupDb.setupDatabase env first second = [SetupDb.Exit 1].
Proof.
  unfold SetupDb.setupDatabase, complete.
  destruct (SetupDb.unset (SetupDb.PGHOST env)),
           (SetupDb.unset (SetupDb.PGPORT env)),
           (SetupDb.unset (SetupDb.PGUSER env)),
           (SetupDb.unset (SetupDb.PGPASSWORD env)),
           (SetupDb.unset (SetupDb.PGDATABASE env));
    simpl; first [by left | right; naive_solver].
Qed.

(** The five ways the two steps can go. *)
Lemma steps_cases target ssl first second :
  let postgres := SetupDb.NewPool (js "postgres") ssl in
  let create := SetupDb.Query (SetupDb.CreateDatabase target) in
  let step1 :=
    match first with
    | SetupDb.ConnectFails _ => [postgres; SetupDb.End_]
    | _ => [postgres; SetupDb.Connect; create; SetupDb.Release; SetupDb.End_]
    end in
  ¬ benign first ∧
    SetupDb.steps target ssl first second = step1 ++ [SetupDb.Exit 1]
  ∨ benign first ∧
    SetupDb.steps target ssl first second =
      step1 ++ SetupDb.NewPool target ssl ::
      match second with
      | SetupDb.ConnectFails _ => [SetupDb.Exit 1]
      | SetupDb.QueryFails _ =>
          [SetupDb.Connect; SetupDb.Query SetupDb.CreateTable; SetupDb.Exit 1]
      | SetupDb.Succeeds =>
          [SetupDb.Connect; SetupDb.Query SetupDb.CreateTable;
           SetupDb.Release; SetupDb.End_]
      end.
Proof.
  unfold SetupDb.steps, benign, SetupDb.duplicate_database.
  destruct first as [code|code|]; try case_bool_decide; simpl; auto.
Qed.

(** X19: when the set-up succeeds.  The script ends with status 0 exactly
    when the five connection variables are set and not empty, the first
    step went through or failed with the code of an existing database
    (42P04), and the second step went through; in every other case it ends
    with status 1.  The table statement is sent only after such a first
    step. *)
Theorem setup_succeeds_iff env first second :
  (SetupDb.exit_status (SetupDb.setupDatabase env first second) = 0
   ↔ complete env ∧ benign first ∧ second = SetupDb.Succeeds) ∧
  (SetupDb.exit_status (SetupDb.setupDatabase env first second) = 0 ∨
   SetupDb.exit_status (SetupDb.setupDatabase env first second) = 1) ∧
  (SetupDb.Query SetupDb.CreateTable
     ∈ SetupDb.setupDatabase env first second
   ↔ complete env ∧ benign first ∧
     ∀ code, second ≠ SetupDb.ConnectFails code).
Proof.
  destruct (setup_env env first second) as [[Henv ->]|[Henv ->]].
  2:{ split; [|split]; [split; [done|naive_solver]|by right|].
      split; [|naive_solver].
      rewrite elem_of_cons, elem_of_nil. naive_solver. }
  destruct (steps_cases (default [] (SetupDb.PGDATABASE env))
              (bool_decide (SetupDb.PGSSLMODE env = Some (js "require")))
              first second) as [[Hb ->]|[Hb ->]].
  - split; [|split].
    + split; [|naive_solver]. by destruct first.
    + right. by destruct first.
    + split; [|naive_solver]. destruct first; set_solver.
  - split; [|split].
    + by destruct first, second; split; try done; naive_solver.
    + destruct first, second; auto.
    + destruct first, second; split; try naive_solver; set_solver.
Qed.

(** X20: the set-up script keeps its resources in order.  Whatever the
    environment and however the two steps go, it asks a pool for a client
    only after creating the pool, sends a statement only on a client it
    holds, releases no client twice, ends no pool whose client is still
    out, and does nothing after [process.exit].  At the end no pool and no
    client is left open, except when the second step fails: then the script
    exits at once, with the pool of that step (and its client, if it got
    one) still open. *)
Theorem setup_is_orderly env first second :
  ∃ pools clients,
    track (SetupDb.setupDatabase env first second) 0 0
      = Some (pools, clients) ∧
    (pools ≤ 1)%nat ∧ (clients ≤ pools)%nat ∧
    (pools = 0%nat ∨
     complete env ∧ benign first ∧ second ≠ SetupDb.Succeeds).
Proof.
  destruct (setup_env env first second) as [[Henv ->]|[Henv ->]].
  2:{ exists 0%nat, 0%nat. repeat split; auto. }
  destruct (steps_cases (default [] (SetupDb.PGDATABASE env))
              (bool_decide (SetupDb.PGSSLMODE env = Some (js "require")))
              first second) as [[Hb ->]|[Hb ->]].
  - exists 0%nat, 0%nat. destruct first; repeat split; auto.
  - destruct first, second; simpl;
      first [ exists 0%nat, 0%nat; repeat split; by auto
            | exists 1%nat, 0%nat; repeat split; by auto
            | exists 1%nat, 1%nat; repeat split; by auto ].
Qed.

(** ** The texts in the table *)

Lemma utf8_length s : length (utf8 s) = length s.
Proof. apply length_map. Qed.

Lemma utf8_is_well_formed s : well_formed (utf8 s).
Proof.
  induction s as [|c s IH]; simpl; [constructor|].
  constructor; [|done]. by destruct (is_scalar_value c) eqn:Hc.
Qed.

Lemma utf8_blank s : blank (utf8 s) → blank s.
Proof.
  induction s as [|c s IH]; simpl; [done|].
  intros [Hc Hs]%Forall_cons. apply List.Forall_cons; [|by apply IH].
  by destruct (is_scalar_value c).
Qed.

Lemma spaces_blank s : Forall (λ c, c = 32%N) s → blank s.
Proof. intros H. eapply Forall_impl; [done|]. by intros c ->. Qed.

Lemma varchar_stored s t :
  trim s ≠ [] → 0%N ∉ utf8 s → varchar 255 (utf8 s) = Some t →
  stored_text t.
Proof.
  intros Hs Hnul. unfold varchar. case_bool_decide as Hdrop; [|done].
  intros [= <-]. split; [|split; [|split]].
  - intros Hb. apply Hs, trim_blank, utf8_blank.
    rewrite <- (take_drop 255 (utf8 s)). apply Forall_app.
    split; [done|by apply spaces_blank].
  - rewrite length_take. lia.
  - intros Hin. apply Hnul. rewrite <- (take_drop 255 (utf8 s)).
    apply elem_of_app. by left.
  - apply Forall_take, utf8_is_well_formed.
Qed.

Lemma handle_texts_kept link req b :
  wf (database b) → texts_kept (database b) →
  texts_kept (database (handle link req b).2).
Proof.
  intros Hwf Hd. unfold texts_kept in *.
  destruct req as [|body|p body|p]; simpl.
  - by destruct (get_size link b) as [-> _].
  - unfold post_api_todos.
    destruct (destructure body (js "text")) as [e|v]; [done|].
    destruct (negb (truthy v)); [done|].
    destruct v as [| | | |s| |]; try done.
    case_bool_decide as Hs; [done|].
    destruct link; [|done]. unfold with_client, query. cbv zeta.
    case_bool_decide as Hnul; [done|].
    destruct (varchar 255 (utf8 s)) as [t|] eqn:Hv; [|done].
    case_bool_decide; [done|]. simpl.
    intros i t' c. rewrite lookup_insert_Some.
    intros [[_ [= <- _]]|[_ Hi]]; [by eapply varchar_stored|by eapply Hd].
  - destruct (put_effect link p body b)
      as [->|(i & t & c0 & c & _ & Hi & ->)]; [done|].
    simpl. intros k t' c'. rewrite lookup_insert_Some.
    intros [[_ [= <- _]]|[_ Hk]]; by eapply Hd.
  - destruct (delete_effect link p b) as [->|(i & _ & _ & _ & ->)]; [done|].
    simpl. intros k t' c'. rewrite lookup_delete_Some.
    intros [_ Hk]. by eapply Hd.
Qed.

(** X21: no blank text is ever stored.  After any sequence of requests on
    the freshly created table, every Todo in it has a text that is not empty
    and not made of white space only, has at most 255 characters and holds
    no NUL character; and every Todo that a list returns is such. *)
Theorem stored_texts_are_not_blank script i t c :
  todos (database (run script boot)) !! i = Some (t, c) →
  t ≠ [] ∧ (¬ blank t) ∧ (length t ≤ 255)%nat ∧ (0%N ∉ t) ∧
  {| id := i; text := t; completed := c |}
    ∈ select_all (database (run script boot)).
Proof.
  assert (Hrun : ∀ b, wf (database b) → texts_kept (database b) →
                      texts_kept (database (run script b))).
  { induction script as [|[link req] script IH]; intros b Hwf Hd; [done|].
    apply IH; [|by apply handle_texts_kept].
    apply handle_preserves; [|done]. intros q d. apply query_wf. }
  intros Hrow.
  assert (Hboot : texts_kept (database boot)).
  { intros k t' c'. simpl. by rewrite lookup_empty. }
  destruct (Hrun boot wf_boot Hboot i t c Hrow) as (Hb & Hlen & Hnul & _).
  split; [|split; [done|split; [done|split; [done|]]]].
  - intros ->. apply Hb. constructor.
  - by apply elem_of_select_all.
Qed.

Lemma stored_texts_are_not_blank_witness :
  js " x " ≠ [] ∧ (¬ blank (js " x ")).
Proof.
  destruct (stored_texts_are_not_blank
              [(Up, POST_todos (text_body (js "")));
               (Up, POST_todos (text_body (js " x ")))] 1 (js " x ") false)
    as (H1 & H2 & _).
  - vm_compute. reflexivity.
  - done.
Defined.
